(** * Output cleaning, label extraction and majority voting

    A shallow embedding of [src/models/query_utils.py]: the task
    dispatchers ([get_query_params], [find_majority], [clean_llm_output]),
    the voters ([find_majority_str], [find_majority_dict]) and the three
    cleaners ([clean_llm_output_summary], [clean_llm_output_sentiment],
    [clean_llm_output_gold]), together with the parts of Python they rest
    on: [str] methods, the [re] matcher for the patterns the module uses,
    [json.loads], [collections.Counter] and [random.choice]; and of their
    callers, the retrying client of [src/models/ollama_utils.py] and the
    handling of the parameters and of the completion in [predict] of
    [src/models/hf_utils.py]. *)

From Stdlib Require Import String Ascii List Bool Arith NArith ZArith Lia
  Permutation.
Import ListNotations.

Set Warnings "-register-all".

(* ================================================================== *)
(** * Python values *)
(* ================================================================== *)

Module Py.

(** A Python [str] is a sequence of Unicode code points. *)
Definition char := N.
Definition str := list char.

(** Literals of the source are ASCII; [lit] reads one off a Rocq string. *)
Definition lit (s : string) : str :=
  map N_of_ascii (list_ascii_of_string s).

Definition ord (a : ascii) : char := N_of_ascii a.

Definition nl : char := 10%N.        (* '\n' *)
Definition dquote : char := 34%N.    (* the double quote *)
Definition squote : char := 39%N.    (* the single quote *)
Definition bullet : char := 8226%N.  (* U+2022 *)

Fixpoint str_eqb (a b : str) : bool :=
  match a, b with
  | [], [] => true
  | x :: a', y :: b' => (x =? y)%N && str_eqb a' b'
  | _, _ => false
  end.

(** [str.isspace] on one code point, which is also the class [\s] of [re]
    on [str] patterns. *)
Definition isspace (c : char) : bool :=
  ((9 <=? c) && (c <=? 13) || (28 <=? c) && (c <=? 32)
   || (c =? 133) || (c =? 160) || (c =? 5760)
   || (8192 <=? c) && (c <=? 8202)
   || (c =? 8232) || (c =? 8233) || (c =? 8239) || (c =? 8287)
   || (c =? 12288))%N.

(** The digits and word characters of the ASCII range.  [re] also puts the
    decimal digits and letters of other scripts in [\d] and [\w]; their
    tables are not part of this development, so code points above 127 are
    taken as neither. *)
Definition isdigit (c : char) : bool := ((48 <=? c) && (c <=? 57))%N.

Definition isupper (c : char) : bool := ((65 <=? c) && (c <=? 90))%N.
Definition islower (c : char) : bool := ((97 <=? c) && (c <=? 122))%N.

Definition isword (c : char) : bool :=
  isdigit c || isupper c || islower c || (c =? 95)%N.

(** [str.lower], on the ASCII letters; other code points are kept, the
    case tables of the other scripts being no part of this development. *)
Definition lower_char (c : char) : char :=
  if isupper c then (c + 32)%N else c.

Definition lower (s : str) : str := map lower_char s.

(** [str.strip()] with no argument: drop the white space at both ends. *)
Fixpoint lstrip (s : str) : str :=
  match s with
  | c :: s' => if isspace c then lstrip s' else s
  | [] => []
  end.

Definition rstrip (s : str) : str := rev (lstrip (rev s)).

Definition strip (s : str) : str := rstrip (lstrip s).

(** [needle in hay] on strings. *)
Fixpoint startswith (p s : str) : bool :=
  match p, s with
  | [], _ => true
  | a :: p', b :: s' => (a =? b)%N && startswith p' s'
  | _ :: _, [] => false
  end.

Fixpoint contains (needle hay : str) : bool :=
  startswith needle hay ||
  match hay with
  | [] => false
  | _ :: hay' => contains needle hay'
  end.

(** [s.replace(a, b)] for one-character [a] and [b]. *)
Definition replace_char (a b : char) (s : str) : str :=
  map (fun c => if (c =? a)%N then b else c) s.

(** Exceptions the module can raise or let through. *)
Inductive exn :=
| ValueError       (* raise ValueError(f"Unknown dataset: ...") *)
| TypeError
| AttributeError
| IndexError
| KeyError.

Inductive result (A : Type) :=
| Ok (a : A)
| Raise (e : exn).
Arguments Ok {A} a.
Arguments Raise {A} e.

Definition bind {A B} (m : result A) (f : A -> result B) : result B :=
  match m with
  | Ok a => f a
  | Raise e => Raise e
  end.

(** A [float] read from a decimal numeral: [m * 10^e], or one of the
    special values. *)
Inductive pyfloat :=
| FDec (m e : Z)
| FNaN
| FInf (negative : bool).

(** The values the cleaners see: what a caller passes in and what
    [json.loads] builds.  A [dict] keeps its insertion order; its keys are
    strings, as in decoded JSON. *)
Inductive pyval :=
| PNone
| PBool (b : bool)
| PInt (z : Z)
| PFloat (f : pyfloat)
| PStr (s : str)
| PList (l : list pyval)
| PDict (d : list (str * pyval)).

Definition dict := list (str * pyval).

Fixpoint dict_get (d : dict) (k : str) : option pyval :=
  match d with
  | [] => None
  | (k', v) :: d' => if str_eqb k' k then Some v else dict_get d' k
  end.

(** [d[k] = v]: an existing key keeps its place. *)
Fixpoint dict_set (d : dict) (k : str) (v : pyval) : dict :=
  match d with
  | [] => [(k, v)]
  | (k', v') :: d' =>
      if str_eqb k' k then (k', v) :: d' else (k', v') :: dict_set d' k v
  end.

(** [dict(pairs)]: later pairs overwrite earlier ones. *)
Definition dict_of_pairs (ps : list (str * pyval)) : dict :=
  fold_left (fun d kv => dict_set d (fst kv) (snd kv)) ps [].

(** [float(numeral) == n] for [n] 0 or 1.  The numeral is rounded to the
    nearest double, ties to even, so it equals 0.0 when its magnitude is
    at most [2^-1075] and 1.0 when it lies in
    [[1 - 2^-54, 1 + 2^-53]]. *)
Definition dec_is_zero (m e : Z) : bool :=
  ((m =? 0) || ((e <? 0) && (Z.abs m * 2 ^ 1075 <=? 10 ^ (- e))))%Z.

Definition dec_is_one (m e : Z) : bool :=
  (if 0 <=? e
   then let x := m * 10 ^ e * 2 ^ 54 in
        (2 ^ 54 - 1 <=? x) && (x <=? 2 ^ 54 + 2)
   else let d := 10 ^ (- e) in
        ((2 ^ 54 - 1) * d <=? m * 2 ^ 54) && (m * 2 ^ 54 <=? (2 ^ 54 + 2) * d))%Z.

(** [v == n] for an [int] [n] that is 0 or 1. *)
Definition eq_int01 (v : pyval) (n : Z) : bool :=
  match v with
  | PInt z => (z =? n)%Z
  | PBool b => ((if b then 1 else 0) =? n)%Z
  | PFloat (FDec m e) => if (n =? 0)%Z then dec_is_zero m e else dec_is_one m e
  | _ => false
  end.

(** [v in [0, 1]]. *)
Definition in_0_1 (v : pyval) : bool := eq_int01 v 0 || eq_int01 v 1.

(** [v == s] for a string [s]. *)
Definition eq_str (v : pyval) (s : str) : bool :=
  match v with
  | PStr s' => str_eqb s' s
  | _ => false
  end.

(** [key in container], for a string key. *)
Definition py_in (key : str) (container : pyval) : result bool :=
  match container with
  | PDict d => Ok (match dict_get d key with Some _ => true | None => false end)
  | PList l => Ok (existsb (fun v => eq_str v key) l)
  | PStr s => Ok (contains key s)
  | _ => Raise TypeError        (* argument of type ... is not iterable *)
  end.

(** [container[key]], for a string key. *)
Definition py_getitem (container : pyval) (key : str) : result pyval :=
  match container with
  | PDict d => match dict_get d key with
               | Some v => Ok v
               | None => Raise KeyError
               end
  | _ => Raise TypeError        (* indices must be integers *)
  end.

(** [not v] for the containers the module tests. *)
Definition falsy (v : pyval) : bool :=
  match v with
  | PNone => true
  | PBool b => negb b
  | PInt z => (z =? 0)%Z
  | PFloat (FDec m e) => dec_is_zero m e
  | PFloat _ => false
  | PStr s => match s with [] => true | _ => false end
  | PList l => match l with [] => true | _ => false end
  | PDict d => match d with [] => true | _ => false end
  end.

End Py.
Import Py.

(* ================================================================== *)
(** * The [re] matcher *)
(* ================================================================== *)

(** A backtracking matcher for the fragment of [re] syntax the module's
    patterns are written in.  Alternatives are tried left to right, a
    greedy quantifier tries one more repetition before it tries to go on, a
    lazy one the other way round, and the first way through the whole
    pattern is the match: the priorities of [re].  Quantifiers range over
    one-character items, which is all the patterns need apart from one
    optional group, [Opt]. *)
Module Re.

Record flags := Flags {
  IGNORECASE : bool;   (* re.I, (?i) *)
  MULTILINE : bool;    (* re.M, (?m) *)
  DOTALL : bool        (* re.S *)
}.

Definition no_flags := Flags false false false.

(** One-character items. *)
Inductive cset :=
| Chr (c : char)           (* a literal character *)
| Dot                      (* . *)
| Digit                    (* \d *)
| Space                    (* \s *)
| Word                     (* \w *)
| OneOf (cs : list char).  (* [...] *)

Inductive regex :=
| Eps
| One (c : cset)
| Seq (r1 r2 : regex)
| Alt (r1 r2 : regex)                                   (* r1|r2 *)
| Rep (lo : nat) (hi : option nat) (greedy : bool) (c : cset)
                                    (* c{lo,hi}, c{lo,hi}? and the like *)
| Opt (r : regex)                                       (* (?:r)? *)
| Group (i : nat) (r : regex)                           (* (r), group i *)
| Bol                                                   (* ^ *)
| Eol                                                   (* $ *)
| EndZ.                                                 (* \Z *)

(** Case folding used by IGNORECASE.  It is exact for the pattern
    characters of the ASCII range, which are all the patterns have under
    this flag: a letter matches its two ASCII cases, and besides [i]
    matches U+0130 and U+0131, [s] matches U+017F and [k] matches
    U+212A. *)
Definition fold_case (c : char) : char :=
  if isupper c then (c + 32)%N
  else if ((c =? 304) || (c =? 305))%N then 105%N
  else if (c =? 383)%N then 115%N
  else if (c =? 8490)%N then 107%N
  else c.

Definition chr_eqb (f : flags) (c x : char) : bool :=
  if IGNORECASE f then (fold_case x =? fold_case c)%N else (x =? c)%N.

Definition cset_match (f : flags) (c : cset) (x : char) : bool :=
  match c with
  | Chr c => chr_eqb f c x
  | Dot => DOTALL f || negb (x =? nl)%N
  | Digit => isdigit x
  | Space => isspace x
  | Word => isword x
  | OneOf cs => existsb (fun c => chr_eqb f c x) cs
  end.

(** Where the matcher stands: the character before it, the text ahead,
    how much of the text the match has consumed, and the groups closed so
    far. *)
Record cursor := Cursor {
  prev : option char;
  rest : str;
  consumed : nat;
  groups : list (nat * str)
}.

Definition at_bol (f : flags) (cu : cursor) : bool :=
  match prev cu with
  | None => true
  | Some p => MULTILINE f && (p =? nl)%N
  end.

Definition at_end (cu : cursor) : bool :=
  match rest cu with [] => true | _ => false end.

(** [$]: at the end, or before the newline that ends the text; with
    MULTILINE before any newline. *)
Definition at_eol (f : flags) (cu : cursor) : bool :=
  match rest cu with
  | [] => true
  | x :: s => (x =? nl)%N && (MULTILINE f || match s with [] => true | _ => false end)
  end.

Definition orelse {A} (a : option A) (b : unit -> option A) : option A :=
  match a with
  | Some x => Some x
  | None => b tt
  end.

Definition hi_allows (hi : option nat) : bool :=
  match hi with
  | Some 0 => false
  | _ => true
  end.

(** [c{lo,hi}] from the cursor [(p, s, n, g)], then the continuation. *)
Fixpoint rep_chars (f : flags) (c : cset) (greedy : bool)
    (k : cursor -> option cursor) (lo : nat) (hi : option nat)
    (p : option char) (n : nat) (g : list (nat * str)) (s : str)
    {struct s} : option cursor :=
  let more (_ : unit) :=
    match s with
    | x :: s' =>
        if cset_match f c x && hi_allows hi
        then rep_chars f c greedy k (pred lo) (option_map pred hi)
                       (Some x) (S n) g s'
        else None
    | [] => None
    end in
  let stop (_ : unit) := k (Cursor p s n g) in
  match lo with
  | S _ => more tt
  | 0 => if greedy then orelse (more tt) stop else orelse (stop tt) more
  end.

Fixpoint run (f : flags) (r : regex) (cu : cursor)
    (k : cursor -> option cursor) {struct r} : option cursor :=
  match r with
  | Eps => k cu
  | One c =>
      match rest cu with
      | x :: s' =>
          if cset_match f c x
          then k (Cursor (Some x) s' (S (consumed cu)) (groups cu))
          else None
      | [] => None
      end
  | Seq r1 r2 => run f r1 cu (fun cu' => run f r2 cu' k)
  | Alt r1 r2 => orelse (run f r1 cu k) (fun _ => run f r2 cu k)
  | Rep lo hi greedy c =>
      rep_chars f c greedy k lo hi (prev cu) (consumed cu) (groups cu) (rest cu)
  | Opt r' => orelse (run f r' cu k) (fun _ => k cu)
  | Group i r' =>
      run f r' cu (fun cu' =>
        k (Cursor (prev cu') (rest cu') (consumed cu')
             ((i, firstn (consumed cu' - consumed cu) (rest cu)) :: groups cu')))
  | Bol => if at_bol f cu then k cu else None
  | Eol => if at_eol f cu then k cu else None
  | EndZ => if at_end cu then k cu else None
  end.

(** A match that starts right here: its length and its groups.  With
    [must_advance] an empty match is refused, as [re] does directly after
    an empty match. *)
Definition match_at (f : flags) (r : regex) (must_advance : bool)
    (p : option char) (s : str) : option (nat * list (nat * str)) :=
  match run f r (Cursor p s 0 [])
          (fun cu => if must_advance && (consumed cu =? 0) then None else Some cu)
  with
  | Some cu => Some (consumed cu, groups cu)
  | None => None
  end.

(** The text cut into the characters outside any match and the matches,
    leftmost first and not overlapping: what [re.sub], [re.findall] and
    [re.finditer] walk over. *)
Inductive token :=
| Keep (c : char)
| Hit (whole : str) (gs : list (nat * str)).

Fixpoint scan (f : flags) (r : regex) (skip : nat) (p : option char)
    (s : str) {struct s} : list token :=
  match skip with
  | S skip' =>
      (* inside the match found before *)
      match s with
      | x :: s' => scan f r skip' (Some x) s'
      | [] => []
      end
  | 0 =>
      let step (_ : unit) :=
        match s with
        | x :: s' => Keep x :: scan f r 0 (Some x) s'
        | [] => []
        end in
      let hit (len : nat) (gs : list (nat * str)) :=
        Hit (firstn (S len) s) gs ::
        match s with
        | x :: s' => scan f r len (Some x) s'
        | [] => []
        end in
      match match_at f r false p s with
      | Some (S len, gs) => hit len gs
      | Some (0, gs) =>
          Hit [] gs ::
          match match_at f r true p s with
          | Some (S len, gs') => hit len gs'
          | _ => step tt
          end
      | None => step tt
      end
  end.

Definition tokens (f : flags) (r : regex) (s : str) : list token :=
  scan f r 0 None s.

(** [re.sub(pattern, repl, string)] for a replacement without group
    references. *)
Definition sub (f : flags) (r : regex) (repl : str) (s : str) : str :=
  flat_map (fun t => match t with Keep c => [c] | Hit _ _ => repl end)
           (tokens f r s).

Definition group (gs : list (nat * str)) (i : nat) : str :=
  match find (fun g => fst g =? i) gs with
  | Some g => snd g
  | None => []       (* a group that took no part reads as '' *)
  end.

(** [re.findall] for a pattern without groups: the matched texts. *)
Definition findall (f : flags) (r : regex) (s : str) : list str :=
  flat_map (fun t => match t with Keep _ => [] | Hit w _ => [w] end)
           (tokens f r s).

(** [re.findall] for a pattern with groups 1 and 2: the pairs. *)
Definition findall2 (f : flags) (r : regex) (s : str) : list (str * str) :=
  flat_map (fun t => match t with
                     | Keep _ => []
                     | Hit _ gs => [(group gs 1, group gs 2)]
                     end)
           (tokens f r s).

(** Pattern syntax. *)
Definition chr (a : ascii) : regex := One (Chr (N_of_ascii a)).

(** A literal text, as [re.escape] yields. *)
Definition text (s : string) : regex :=
  fold_right (fun a r => Seq (chr a) r) Eps (list_ascii_of_string s).

Definition star (c : cset) : regex := Rep 0 None true c.        (* c*  *)
Definition lazy_star (c : cset) : regex := Rep 0 None false c.  (* c*? *)
Definition plus (c : cset) : regex := Rep 1 None true c.        (* c+  *)
Definition opt (c : cset) : regex := Rep 0 (Some 1) true c.     (* c?  *)
Definition at_least (n : nat) (c : cset) : regex := Rep n None true c. (* c{n,} *)

End Re.

Declare Scope re_scope.
Delimit Scope re_scope with re.
Bind Scope re_scope with Re.regex.
Infix ">>" := Re.Seq (at level 61, right associativity) : re_scope.
Infix "<|>" := Re.Alt (at level 62, right associativity) : re_scope.

(* ================================================================== *)
(** * Summary cleaning *)
(* ================================================================== *)

Module Summary.
Import Re.
Local Open Scope string_scope.
Local Open Scope list_scope.
Local Open Scope re_scope.

Definition fl_im := Flags true true false.    (* (?im) *)
Definition fl_m := Flags false true false.    (* (?m) *)
Definition fl_i := Flags true false false.    (* (?i) *)
Definition fl_is := Flags true false true.    (* (?i), flags=re.DOTALL *)

(** [(?im)^.*?\d+\s+bullet points?.*$] *)
Definition re_count_line : regex :=
  Bol >> lazy_star Dot >> plus Digit >> plus Space >> text "bullet point" >>
  opt (Chr (ord "s")) >> star Dot >> Eol.

(** [(?im)^.*?(bullet points?|summary|summariz|key points|important facts).*?(?:\.|\:|\n)] *)
Definition re_headline : regex :=
  Bol >> lazy_star Dot >>
  Group 1 ((text "bullet point" >> opt (Chr (ord "s")))
           <|> text "summary" <|> text "summariz" <|> text "key points"
           <|> text "important facts") >>
  lazy_star Dot >> (chr "." <|> chr ":" <|> One (Chr nl)).

(** [(?m)^#+\s+.*$] *)
Definition re_md_header : regex :=
  Bol >> plus (Chr (ord "#")) >> plus Space >> star Dot >> Eol.

(** [(?m)^\s*[\*\-•]\s*] *)
Definition re_bullet_marker : regex :=
  Bol >> star Space >> One (OneOf [ord "*"; ord "-"; bullet]) >> star Space.

(** [(?m)^\s*\d+\.\s+] *)
Definition re_enum_marker : regex :=
  Bol >> star Space >> plus Digit >> chr "." >> plus Space.

(** [`+] *)
Definition re_backticks : regex := plus (Chr (ord "`")).

Definition phrases_remove_all_after : list string :=
  ["Here is the response in the correct format:"].

(** [rf'(?i){re.escape(phrase)}.*\Z'], compiled with [re.DOTALL] *)
Definition re_all_after (phrase : string) : regex :=
  text phrase >> star Dot >> EndZ.

Definition phrases_remove_line : list string := ["(Note:"].

(** [rf'(?i){re.escape(phrase)}.*$'], compiled with [re.DOTALL] *)
Definition re_line_after (phrase : string) : regex :=
  text phrase >> star Dot >> Eol.

Definition phrases_remove : list string :=
  [ "i hope it is correct";
    "please let me know if";
    "(Note: I added the last point as it was not in the format you requested)";
    "Here is the corrected response:";
    "(Note: I added the last point as it was not in";
    "I hope this is what you were looking for.";
    "$0.00";
    "$$";
    "Here is the corrected response:" ].

(** [\n{3,}] *)
Definition re_blank_lines : regex := at_least 3 (Chr nl).

(** The rewriting rules, in the order of the source, up to and including
    the removal of the filler phrases. *)
Definition remove_boilerplate (text : str) : str :=
  let cleaned_text := sub fl_im re_count_line [] text in
  let cleaned_text := sub fl_im re_headline [] cleaned_text in
  let cleaned_text := sub fl_m re_md_header [] cleaned_text in
  let cleaned_text := sub fl_m re_bullet_marker [] cleaned_text in
  let cleaned_text := sub fl_m re_enum_marker [] cleaned_text in
  let cleaned_text := sub no_flags re_backticks [] cleaned_text in
  let cleaned_text :=
    fold_left (fun t phrase => sub fl_is (re_all_after phrase) [] t)
              phrases_remove_all_after cleaned_text in
  let cleaned_text :=
    fold_left (fun t phrase => sub fl_is (re_line_after phrase) [] t)
              phrases_remove_line cleaned_text in
  fold_left (fun t phrase => sub fl_i (Re.text phrase) [] t)
            phrases_remove cleaned_text.

(** The last two statements: 3 or more newlines become 2, then [strip]. *)
Definition normalize_whitespace (cleaned_text : str) : str :=
  let cleaned_text := sub no_flags re_blank_lines [nl; nl] cleaned_text in
  strip cleaned_text.

Definition clean_text (text : str) : str :=
  normalize_whitespace (remove_boilerplate text).

(** [clean_llm_output_summary(text)]: [re.sub] takes a [str] and raises
    [TypeError] on anything else. *)
Definition clean_llm_output_summary (text : pyval) : result str :=
  match text with
  | PStr s => Ok (clean_text s)
  | _ => Raise TypeError
  end.

End Summary.
Import Summary.

(* ================================================================== *)
(** * [json.loads] *)
(* ================================================================== *)

(** The decoder of the [json] module with its default settings (strict
    strings, [NaN] and the infinities accepted, the whole text one value
    between optional white space).  [None] stands for
    [json.JSONDecodeError]. *)
Module Json.

Definition is_ws (c : char) : bool :=
  ((c =? 32) || (c =? 9) || (c =? 10) || (c =? 13))%N.

Fixpoint skip_ws (s : str) : str :=
  match s with
  | c :: s' => if is_ws c then skip_ws s' else s
  | [] => []
  end.

Definition hex_val (c : char) : option N :=
  if isdigit c then Some (c - 48)%N
  else if ((97 <=? c) && (c <=? 102))%N then Some (c - 87)%N
  else if ((65 <=? c) && (c <=? 70))%N then Some (c - 55)%N
  else None.

Definition hex4 (a b c d : char) : option N :=
  match hex_val a, hex_val b, hex_val c, hex_val d with
  | Some x, Some y, Some z, Some w => Some (((x * 16 + y) * 16 + z) * 16 + w)%N
  | _, _, _, _ => None
  end.

Definition backslash : char := 92%N.

Definition unescape (e : char) : option char :=
  if (e =? dquote)%N then Some dquote
  else if (e =? backslash)%N then Some backslash
  else if (e =? ord "/")%N then Some (ord "/")
  else if (e =? ord "b")%N then Some 8%N
  else if (e =? ord "f")%N then Some 12%N
  else if (e =? ord "n")%N then Some 10%N
  else if (e =? ord "r")%N then Some 13%N
  else if (e =? ord "t")%N then Some 9%N
  else None.

Definition is_high_surrogate (u : N) : bool := ((55296 <=? u) && (u <=? 56319))%N.
Definition is_low_surrogate (u : N) : bool := ((56320 <=? u) && (u <=? 57343))%N.

(** [scanstring], from behind the opening quote: the text up to the
    closing quote with its escapes resolved, and what follows.  [acc] is
    the text read so far, reversed. *)
Fixpoint scanstring (s : str) (acc : str) {struct s} : option (str * str) :=
  match s with
  | [] => None                                   (* unterminated *)
  | c :: s1 =>
      if (c =? dquote)%N then Some (rev acc, s1)
      else if (c =? backslash)%N then
        match s1 with
        | [] => None
        | e :: s2 =>
            if (e =? ord "u")%N then
              match s2 with
              | a :: b :: c' :: d :: s3 =>
                  match hex4 a b c' d with
                  | None => None
                  | Some u =>
                      match s3 with
                      | b1 :: u1 :: a2 :: b2 :: c2 :: d2 :: s4 =>
                          if is_high_surrogate u && (b1 =? backslash)%N
                             && (u1 =? ord "u")%N
                          then match hex4 a2 b2 c2 d2 with
                               | None => None
                               | Some u2 =>
                                   if is_low_surrogate u2
                                   then scanstring s4
                                          ((65536 + (u - 55296) * 1024
                                            + (u2 - 56320))%N :: acc)
                                   else scanstring s3 (u :: acc)
                               end
                          else scanstring s3 (u :: acc)
                      | _ => scanstring s3 (u :: acc)
                      end
                  end
              | _ => None
              end
            else match unescape e with
                 | Some x => scanstring s2 (x :: acc)
                 | None => None
                 end
        end
      else if (c <=? 31)%N then None                (* control character *)
      else scanstring s1 (c :: acc)
  end.

Fixpoint span_digits (s : str) : str * str :=
  match s with
  | c :: s' =>
      if isdigit c then let (ds, r) := span_digits s' in (c :: ds, r)
      else ([], s)
  | [] => ([], [])
  end.

Definition digits_value (ds : str) : Z :=
  fold_left (fun acc c => (acc * 10 + Z.of_N (c - 48))%Z) ds 0%Z.

(** The parts of a numeral: an optional minus sign; [0] or a digit string
    without leading zero; optionally a point with digits; optionally an
    exponent.  A part that is absent leaves the text where it is. *)
Definition number_sign (s : str) : bool * str :=
  match s with
  | c :: s' => if (c =? ord "-")%N then (true, s') else (false, s)
  | [] => (false, s)
  end.

Definition number_int (s : str) : option (str * str) :=
  match s with
  | d :: s' =>
      if (d =? ord "0")%N then Some ([d], s')
      else if isdigit d then let (ds, r) := span_digits s' in Some (d :: ds, r)
      else None
  | [] => None
  end.

Definition number_frac (s : str) : option str * str :=
  match s with
  | p :: d :: s' =>
      if ((p =? ord ".")%N && isdigit d)
      then let (ds, r) := span_digits s' in (Some (d :: ds), r)
      else (None, s)
  | _ => (None, s)
  end.

Definition exponent_sign (s : str) : bool * str :=
  match s with
  | sg :: s' =>
      if (sg =? ord "-")%N then (true, s')
      else if (sg =? ord "+")%N then (false, s')
      else (false, s)
  | [] => (false, s)
  end.

Definition number_exp (s : str) : option Z * str :=
  match s with
  | e :: s' =>
      if ((e =? ord "e") || (e =? ord "E"))%N then
        let (eneg, r) := exponent_sign s' in
        match span_digits r with
        | ([], _) => (None, s)
        | (ds, r') =>
            (Some (if eneg then (- digits_value ds)%Z else digits_value ds), r')
        end
      else (None, s)
  | [] => (None, s)
  end.

(** The numeral at the head of [s]: an [int] when it has neither fraction
    nor exponent, a [float] otherwise. *)
Definition match_number (s : str) : option (pyval * str) :=
  let (neg, s1) := number_sign s in
  match number_int s1 with
  | None => None
  | Some (ip, r) =>
      let (frac, r1) := number_frac r in
      let (exp, r2) := number_exp r1 in
      let sign (z : Z) := if neg then (- z)%Z else z in
      match frac, exp with
      | None, None => Some (PInt (sign (digits_value ip)), r2)
      | _, _ =>
          let fd := match frac with Some ds => ds | None => [] end in
          let e := match exp with Some e => e | None => 0%Z end in
          Some (PFloat (FDec (sign (digits_value (ip ++ fd)))
                             (e - Z.of_nat (List.length fd))), r2)
      end
  end.

Definition literal (word : string) (v : pyval) (s : str) : option (pyval * str) :=
  if startswith (lit word) s
  then Some (v, skipn (String.length word) s)
  else None.

(** [scan_once] with the object and array loops.  [fuel] bounds the depth
    of the calls; [loads] gives twice the length of the text, which is
    never used up ([loads_fuel_enough]). *)
Fixpoint scan_once (fuel : nat) (s : str) {struct fuel} : option (pyval * str) :=
  match fuel with
  | 0 => None
  | S fuel' =>
      match s with
      | [] => None
      | c :: s' =>
          if (c =? dquote)%N then
            match scanstring s' [] with
            | Some (x, r) => Some (PStr x, r)
            | None => None
            end
          else if (c =? ord "{")%N then
            match skip_ws s' with
            | c1 :: s2 =>
                if (c1 =? ord "}")%N then Some (PDict [], s2)
                else JSONObject fuel' (c1 :: s2) []
            | [] => None
            end
          else if (c =? ord "[")%N then
            match skip_ws s' with
            | c1 :: s2 =>
                if (c1 =? ord "]")%N then Some (PList [], s2)
                else JSONArray fuel' (c1 :: s2) []
            | [] => None
            end
          else
            Re.orelse (literal "null" PNone s) (fun _ =>
            Re.orelse (literal "true" (PBool true) s) (fun _ =>
            Re.orelse (literal "false" (PBool false) s) (fun _ =>
            Re.orelse (literal "NaN" (PFloat FNaN) s) (fun _ =>
            Re.orelse (literal "Infinity" (PFloat (FInf false)) s) (fun _ =>
            Re.orelse (literal "-Infinity" (PFloat (FInf true)) s) (fun _ =>
            match_number s))))))
      end
  end

(** The members of an object, [s] standing at the quote that opens a key. *)
with JSONObject (fuel : nat) (s : str) (pairs : list (str * pyval))
    {struct fuel} : option (pyval * str) :=
  match fuel with
  | 0 => None
  | S fuel' =>
      match s with
      | q :: s1 =>
          if (q =? dquote)%N then
            match scanstring s1 [] with
            | Some (key, s2) =>
                match skip_ws s2 with
                | c :: s3 =>
                    if (c =? ord ":")%N then
                      match scan_once fuel' (skip_ws s3) with
                      | Some (value, s4) =>
                          let pairs := pairs ++ [(key, value)] in
                          match skip_ws s4 with
                          | d :: s5 =>
                              if (d =? ord "}")%N
                              then Some (PDict (dict_of_pairs pairs), s5)
                              else if (d =? ord ",")%N
                              then JSONObject fuel' (skip_ws s5) pairs
                              else None
                          | [] => None
                          end
                      | None => None
                      end
                    else None
                | [] => None
                end
            | None => None
            end
          else None
      | [] => None
      end
  end

(** The elements of an array, [s] standing at an element. *)
with JSONArray (fuel : nat) (s : str) (values : list pyval)
    {struct fuel} : option (pyval * str) :=
  match fuel with
  | 0 => None
  | S fuel' =>
      match scan_once fuel' s with
      | Some (value, s1) =>
          let values := values ++ [value] in
          match skip_ws s1 with
          | d :: s2 =>
              if (d =? ord "]")%N then Some (PList values, s2)
              else if (d =? ord ",")%N
              then JSONArray fuel' (skip_ws s2) values
              else None
          | [] => None
          end
      | None => None
      end
  end.

Definition bom : char := 65279%N.

Definition loads (s : str) : option pyval :=
  match s with
  | c :: _ => if (c =? bom)%N then None else
      match scan_once (2 * List.length s + 2) (skip_ws s) with
      | Some (obj, r) => match skip_ws r with
                         | [] => Some obj
                         | _ => None        (* extra data *)
                         end
      | None => None
      end
  | [] => None
  end.

End Json.

(* ================================================================== *)
(** * Randomness and exceptions *)
(* ================================================================== *)

(** The state of the [random] module is the sequence of the numbers it
    will draw.  A computation takes that state, and returns a value or an
    exception together with the state left. *)
Module Rand.

Definition rng := nat -> nat.

Definition M (A : Type) := rng -> result A * rng.

Definition ret {A} (a : A) : M A := fun g => (Ok a, g).

Definition raise {A} (e : exn) : M A := fun g => (Raise e, g).

Definition mbind {A B} (m : M A) (f : A -> M B) : M B :=
  fun g => match m g with
           | (Ok a, g') => f a g'
           | (Raise e, g') => (Raise e, g')
           end.

Definition lift {A} (r : result A) : M A := fun g => (r, g).

(** [random.choice(seq)]: the element at the index the generator draws
    below [len(seq)].  The next number of the state, reduced modulo the
    length, is that index, so every index can be drawn. *)
Definition choice {A} (seq : list A) : M A :=
  fun g =>
    match nth_error seq (g 0 mod List.length seq) with
    | Some x => (Ok x, fun i => g (S i))
    | None => (Raise IndexError, g)        (* the empty sequence *)
    end.

(** A state whose first draw is [i] and whose later draws are 0. *)
Definition draws (i : nat) : rng := fun n => match n with 0 => i | _ => 0 end.

End Rand.
Import Rand.

Notation "x <- m ;; k" := (mbind m (fun x => k))
  (at level 100, m at next level, right associativity).

(* ================================================================== *)
(** * Majority voting *)
(* ================================================================== *)

(** Items that [Counter] can count: equality decided by a boolean test. *)
Class Hashable (A : Type) := {
  item_eqb : A -> A -> bool;
  item_eqb_eq : forall x y, item_eqb x y = true <-> x = y
}.

Definition str_eqb_eq (a b : str) : str_eqb a b = true <-> a = b.
Proof.
  revert b; induction a as [|x a IH]; intros [|y b]; simpl;
    try (split; [discriminate | discriminate]); [tauto|].
  rewrite andb_true_iff, N.eqb_eq, IH. split.
  - intros [-> ->]; reflexivity.
  - intros E; injection E; auto.
Qed.

#[export] Instance Hashable_str : Hashable str :=
  {| item_eqb := str_eqb; item_eqb_eq := str_eqb_eq |}.

#[export] Instance Hashable_Z : Hashable Z :=
  {| item_eqb := Z.eqb; item_eqb_eq := Z.eqb_eq |}.

#[export] Instance Hashable_nat : Hashable nat :=
  {| item_eqb := Nat.eqb; item_eqb_eq := Nat.eqb_eq |}.

Section Voting.

Context {A : Type} `{Hashable A}.

(** [Counter(responses)]: the distinct items in the order of their first
    appearance, each with the number of its appearances. *)
Fixpoint counter_add (counter : list (A * nat)) (x : A) : list (A * nat) :=
  match counter with
  | [] => [(x, 1)]
  | (y, n) :: counter' =>
      if item_eqb y x then (y, S n) :: counter'
      else (y, n) :: counter_add counter' x
  end.

Definition Counter (responses : list A) : list (A * nat) :=
  fold_left counter_add responses [].

(** [max(items, key=count)]: the first item among those counted most. *)
Fixpoint max_count (best : A * nat) (items : list (A * nat)) : A * nat :=
  match items with
  | [] => best
  | it :: items' =>
      if snd best <? snd it then max_count it items' else max_count best items'
  end.

(** [counter.most_common(1)] *)
Definition most_common_1 (counter : list (A * nat)) : list (A * nat) :=
  match counter with
  | [] => []
  | it :: items => [max_count it items]
  end.

(** The test [majority[1] > len(values) / 2] and the two ways out of it,
    the body shared by [find_majority_str] and the second loop of
    [find_majority_dict]. *)
Definition find_majority_str (responses : list A) : M A :=
  let counter := Counter responses in
  match most_common_1 counter with
  | [] => raise IndexError                     (* most_common(1)[0] *)
  | majority :: _ =>
      if List.length responses <? 2 * snd majority
      then ret (fst majority)
      else choice responses
  end.

End Voting.

Section VotingDict.

Context {K V : Type} `{Hashable K} `{Hashable V}.

(** [majority_dict[key].append(value)], with the list created at the end
    of the dict when the key is new. *)
Fixpoint append_value (majority_dict : list (K * list V)) (key : K) (value : V)
  : list (K * list V) :=
  match majority_dict with
  | [] => [(key, [value])]
  | (k, vs) :: rest =>
      if item_eqb k key then (k, vs ++ [value]) :: rest
      else (k, vs) :: append_value rest key value
  end.

(** The first loop: the values seen for each key, over all responses. *)
Definition collect_values (responses : list (list (K * V))) : list (K * list V) :=
  fold_left
    (fun majority_dict response =>
       fold_left (fun md kv => append_value md (fst kv) (snd kv))
                 response majority_dict)
    responses [].

(** The second loop: each key's list is replaced by its majority, or by a
    random element of the list. *)
Fixpoint vote_each (entries : list (K * list V)) : M (list (K * V)) :=
  match entries with
  | [] => ret []
  | (key, values) :: entries' =>
      v <- find_majority_str values ;;
      rest <- vote_each entries' ;;
      ret ((key, v) :: rest)
  end.

Definition find_majority_dict (responses : list (list (K * V))) : M (list (K * V)) :=
  vote_each (collect_values responses).

End VotingDict.

(* ================================================================== *)
(** * Dispatch on the dataset name *)
(* ================================================================== *)

Local Open Scope string_scope.
Local Open Scope list_scope.

(** The records of [src.config.query_config], which the module imports;
    only which one is returned matters here. *)
Inductive query_params :=
| query_params_sentiment
| query_params_gold
| query_params_summary.

Definition get_query_params (dataset_name : str) : result query_params :=
  if contains (lit "sentiment") dataset_name then Ok query_params_sentiment
  else if contains (lit "gold") dataset_name then Ok query_params_gold
  else if contains (lit "summary") dataset_name then Ok query_params_summary
  else Raise ValueError.

(** What [find_majority] is given: a list of items (the source's "list of
    strings") or a list of dicts; and what it returns, [None] included. *)
Inductive responses (A K V : Type) :=
| Items (l : list A)
| Dicts (l : list (list (K * V))).
Arguments Items {A K V} l.
Arguments Dicts {A K V} l.

Inductive verdict (A K V : Type) :=
| Item (a : A)
| DictOf (d : list (K * V))
| NoVerdict.              (* the function ran off its end: [None] *)
Arguments Item {A K V} a.
Arguments DictOf {A K V} d.
Arguments NoVerdict {A K V}.

Section Dispatch.

Context {A K V : Type} `{Hashable A} `{Hashable K} `{Hashable V}.

(** [find_majority_str] at either kind of list: a dict is not hashable. *)
Definition vote_str (rs : responses A K V) : M (verdict A K V) :=
  match rs with
  | Items l => a <- find_majority_str l ;; ret (Item a)
  | Dicts [] => raise IndexError
  | Dicts (_ :: _) => raise TypeError
  end.

(** [find_majority_dict] at either kind of list: an item has no
    [items()]. *)
Definition vote_dict (rs : responses A K V) : M (verdict A K V) :=
  match rs with
  | Dicts l => d <- find_majority_dict l ;; ret (DictOf d)
  | Items [] => ret (DictOf [])
  | Items (_ :: _) => raise AttributeError
  end.

Definition find_majority (rs : responses A K V) (dataset_name : str)
  : M (verdict A K V) :=
  if contains (lit "sentiment") dataset_name then vote_str rs
  else if contains (lit "gold") dataset_name then vote_dict rs
  else if contains (lit "summary") dataset_name then vote_str rs
  else ret NoVerdict.

End Dispatch.

(* ================================================================== *)
(** * Sentiment extraction *)
(* ================================================================== *)

Module Sentiment.

Definition mapping : list (string * Z) :=
  [ ("negative", 0%Z); ("neutral", 1%Z); ("positive", 2%Z) ].

(** [mapping[word]] *)
Definition mapping_get (word : str) : result Z :=
  match find (fun kv => str_eqb (lit (fst kv)) word) mapping with
  | Some kv => Ok (snd kv)
  | None => Raise KeyError
  end.

(** [words_found]: each keyword as often as [re.findall] finds it. *)
Definition words_found (text : str) : list str :=
  flat_map
    (fun kv =>
       repeat (lit (fst kv))
              (List.length (Re.findall Re.no_flags (Re.text (fst kv)) text)))
    mapping.

Definition clean_llm_output_sentiment (text : pyval) : M Z :=
  match text with
  | PNone => ret (-1)%Z
  | PStr [] => ret (-1)%Z
  | PStr s =>
      let text := lower (strip s) in
      match mapping_get text with
      | Ok label => ret label                       (* an exact match *)
      | Raise _ =>
          match words_found text with
          | [] => ret (-1)%Z
          | found =>
              majority_word <-
                find_majority (K := str) (V := Z) (Items found) (lit "sentiment") ;;
              match majority_word with
              | Item w => lift (mapping_get w)
              | _ => raise KeyError
              end
          end
      end
  | _ => raise AttributeError                        (* no [strip] *)
  end.

End Sentiment.
Import Sentiment.

(* ================================================================== *)
(** * Gold extraction *)
(* ================================================================== *)

Module Gold.
Import Re.

Definition expected_keys : list string :=
  [ "price_or_not"; "price_up"; "price_const_stable"; "price_down";
    "past_price_info"; "future_price_info"; "past_gen_info";
    "future_gen_info"; "asset_comparison" ].

Definition fl_s := Flags false false true.       (* re.DOTALL *)

(** [```(?:json|python)?\s*|\s*```] *)
Definition re_fence : regex :=
  (text "```" >> Opt (text "json" <|> text "python") >> star Space
   <|> star Space >> text "```")%re.

(** [(?:\{|\[).*?(?:\}|\])] *)
Definition json_pattern : regex :=
  ((chr "{" <|> chr "[") >> lazy_star Dot >> (chr "}" <|> chr "]"))%re.

(** ["?(\w+)"?\s*:\s*(-?\d+)], the quotes being double quotes *)
Definition re_pair : regex :=
  (opt (Chr dquote) >> Group 1 (plus Word) >> opt (Chr dquote) >> star Space
   >> chr ":" >> star Space >> Group 2 (opt (Chr (ord "-")) >> plus Digit))%re.

(** [int(value)] for a text that matched [-?\d+]. *)
Definition int_of (value : str) : Z :=
  match value with
  | c :: ds => if (c =? ord "-")%N then (- Json.digits_value ds)%Z
               else Json.digits_value value
  | [] => 0%Z
  end.

(** [any(key in candidate for key in expected_keys)], for a dict. *)
Definition has_expected_key (d : dict) : bool :=
  existsb (fun key => match dict_get d (lit key) with
                      | Some _ => true
                      | None => false
                      end) expected_keys.

(** The loop over [json_matches]: the first candidate that decodes to a
    dict with an expected key, if there is one. *)
Fixpoint first_candidate (json_matches : list str) : option dict :=
  match json_matches with
  | [] => None
  | json_str :: others =>
      match Json.loads json_str with
      | Some (PDict d) =>
          if has_expected_key d then Some d        (* break *)
          else first_candidate others
      | Some _ => first_candidate others
      | None => first_candidate others             (* continue *)
      end
  end.

(** [parsed_data] for a [str] input. *)
Definition parse_text (input_data : str) : pyval :=
  let clean_input := sub no_flags re_fence [] input_data in
  let json_matches := findall fl_s json_pattern clean_input in
  let parsed_data :=
    match first_candidate json_matches with
    | Some d => PDict d
    | None => PDict []
    end in
  if falsy parsed_data then
    match Json.loads clean_input with
    | Some v => v
    | None =>
        let clean_input := replace_char squote dquote clean_input in
        match Json.loads clean_input with
        | Some v => v
        | None =>
            let pairs := findall2 no_flags re_pair clean_input in
            PDict (dict_of_pairs
                     (map (fun kv => (fst kv, PInt (int_of (snd kv)))) pairs))
        end
    end
  else parsed_data.

(** The last loop: the entries of [result] that [parsed_data] overrides. *)
Fixpoint update_result (keys : list string) (parsed_data : pyval) (result : dict)
  : Py.result dict :=
  match keys with
  | [] => Ok result
  | key :: keys' =>
      bind (py_in (lit key) parsed_data) (fun present =>
        if present then
          bind (py_getitem parsed_data (lit key)) (fun v =>
            if in_0_1 v
            then update_result keys' parsed_data (dict_set result (lit key) v)
            else update_result keys' parsed_data result)
        else update_result keys' parsed_data result)
  end.

(** [parsed_data] after the [isinstance] tests: the input itself when it
    is a dict, what the text yields when it is a [str], and the empty dict
    it was initialised with otherwise. *)
Definition parse_input (input_data : pyval) : pyval :=
  match input_data with
  | PDict d => PDict d
  | PStr s => parse_text s
  | _ => PDict []
  end.

Definition clean_llm_output_gold (input_data : pyval) : Py.result dict :=
  let result := map (fun key => (lit key, PInt (-1))) expected_keys in
  let parsed_data := parse_input input_data in
  update_result expected_keys parsed_data result.

End Gold.
Import Gold.

(* ================================================================== *)
(** * The cleaning dispatcher *)
(* ================================================================== *)

Definition clean_llm_output (dataset_name : str) (text : pyval) : M pyval :=
  if contains (lit "sentiment") dataset_name then
    label <- clean_llm_output_sentiment text ;; ret (PInt label)
  else if contains (lit "gold") dataset_name then
    d <- lift (clean_llm_output_gold text) ;; ret (PDict d)
  else if contains (lit "summary") dataset_name then
    s <- lift (clean_llm_output_summary text) ;; ret (PStr s)
  else ret PNone.

(* ================================================================== *)
(** * The Ollama client *)
(* ================================================================== *)

(** [src/models/ollama_utils.py].  The server and the clock are outside
    the program: what is modelled of them is the sequence of requests and
    waits the program makes, and the answers it gets. *)
Module Ollama.
Local Open Scope string_scope.
Local Open Scope list_scope.

(** [params.get(key)] *)
Definition get (params : dict) (key : string) : pyval :=
  match dict_get params (lit key) with
  | Some v => v
  | None => PNone
  end.

Definition is_none (v : pyval) : bool :=
  match v with PNone => true | _ => false end.

(** The keyword arguments of [chat]. *)
Record request := {
  model : pyval;
  messages : pyval;
  options : dict
}.

Inductive event :=
| Chat (r : request)         (* chat(model=..., messages=..., options=...) *)
| Sleep (secs : pyval).      (* time.sleep(retry_delay) *)

Definition trace := list event.

(** A computation that talks to the server: from the events so far to a
    value or an exception, and the events then. *)
Definition W (A : Type) := trace -> result A * trace.

(** The argument of [range]: an [int], of which [bool] is a kind. *)
Definition as_int (v : pyval) : result Z :=
  match v with
  | PInt z => Ok z
  | PBool b => Ok (if b then 1 else 0)%Z
  | _ => Raise TypeError       (* ... cannot be interpreted as an integer *)
  end.

(** [options], as the dict display and the assignment build it. *)
Definition options_of (params : dict) : dict :=
  let options :=
    [ (lit "temperature", get params "temperature");
      (lit "seed", get params "seed");
      (lit "top_p", get params "top_p");
      (lit "top_k", get params "top_k");
      (lit "num_predict", get params "max_new_tokens") ] in
  if is_none (get params "max_context_length") then options
  else dict_set options (lit "num_ctx") (get params "max_context_length").

Section Client.

(** [src.models.model_mapping.model_mapping], a dict of dicts. *)
Variable model_mapping : list (str * dict).

(** [chat(...).message.content] after the events so far: the content, or
    the exception raised on the way to it. *)
Variable chat : trace -> request -> result pyval.

(** [time.sleep]: it returns, or raises on an argument it refuses. *)
Variable sleep : pyval -> result unit.

(** [src.data.data_manager.get_samples]: the prompts of a dataset. *)
Variable get_samples : str -> result (list pyval).

(** [model_mapping.get(model, {}).get("ollama", model)] *)
Definition model_name_of (model : str) : pyval :=
  let entry :=
    match find (fun kv => str_eqb (fst kv) model) model_mapping with
    | Some kv => snd kv
    | None => []
    end in
  match dict_get entry (lit "ollama") with
  | Some v => v
  | None => PStr model
  end.

(** The loop [for attempt in range(max_retries)], with [remaining] values
    of [attempt] still to come. *)
Fixpoint attempts (remaining : nat) (attempt max_retries : Z)
                  (req : request) (retry_delay : pyval) : W pyval :=
  fun tr =>
    match remaining with
    | O => (Ok PNone, tr)            (* the function runs off its end *)
    | S remaining' =>
        match chat tr req with
        | Ok content => (Ok content, tr ++ [Chat req])
        | Raise _ =>                 (* except Exception *)
            let tr := tr ++ [Chat req] in
            if (attempt =? max_retries - 1)%Z then (Ok PNone, tr)
            else
              match sleep retry_delay with
              | Ok _ =>
                  attempts remaining' (attempt + 1) max_retries req retry_delay
                           (tr ++ [Sleep retry_delay])
              | Raise e => (Raise e, tr ++ [Sleep retry_delay])
              end
        end
    end.

Definition request_of (model : str) (prompt : pyval) (params : dict) : request :=
  {| model := model_name_of model;
     messages := PList [PDict [(lit "role", PStr (lit "user"));
                               (lit "content", prompt)]];
     options := options_of params |}.

Definition query_ollama_model (model : str) (prompt : pyval) (params : dict)
  : W pyval :=
  fun tr =>
    let req := request_of model prompt params in
    let max_retries := get params "custom_max_retries" in
    let retry_delay := get params "custom_retry_delay" in
    match as_int max_retries with
    | Ok n => attempts (Z.to_nat n) 0 n req retry_delay tr
    | Raise e => (Raise e, tr)
    end.

(** [query_ollama_sc], given the dicts that [src.config.query_config]
    holds at the time of the call. *)
Definition query_ollama_sc (config : query_params -> dict)
    (model : str) (prompt : pyval) (dataset_name : str)
  : rng -> trace -> result pyval * rng * trace :=
  fun g tr =>
    match get_query_params dataset_name with
    | Raise e => (Raise e, g, tr)
    | Ok query_params =>
        match query_ollama_model model prompt (config query_params) tr with
        | (Raise e, tr') => (Raise e, g, tr')
        | (Ok response, tr') =>
            let (cleaned_response, g') := clean_llm_output dataset_name response g in
            (cleaned_response, g', tr')
        end
    end.

(** The loop of [track_samples_ollama]; [track_sample_ollama] is
    [query_ollama_model] under a tracing decorator. *)
Fixpoint track_each (model : str) (sample_prompts : list pyval) (params : dict)
  : W (list pyval) :=
  fun tr =>
    match sample_prompts with
    | [] => (Ok [], tr)
    | sample_prompt :: others =>
        match query_ollama_model model sample_prompt params tr with
        | (Raise e, tr') => (Raise e, tr')
        | (Ok response, tr') =>
            match track_each model others params tr' with
            | (Raise e, tr'') => (Raise e, tr'')
            | (Ok responses, tr'') => (Ok (response :: responses), tr'')
            end
        end
    end.

Definition track_samples_ollama (config : query_params -> dict)
    (model : str) (dataset_name : str) : W (list pyval) :=
  fun tr =>
    match get_samples dataset_name with
    | Raise e => (Raise e, tr)
    | Ok sample_prompts =>
        match get_query_params dataset_name with
        | Raise e => (Raise e, tr)
        | Ok query_params =>
            track_each model sample_prompts (config query_params) tr
        end
    end.

End Client.

End Ollama.

(* ================================================================== *)
(** * The Hugging Face client: the parameters and the completion *)
(* ================================================================== *)

(** The parts of [HF_Manager.predict] that are the program's own: what it
    does to the parameters before the pipeline is built, and what it keeps
    of a completion. *)
Module HF.
Local Open Scope string_scope.
Local Open Scope list_scope.

(** [params.pop(key, None)] *)
Definition pop (key : string) (params : dict) : dict :=
  filter (fun kv => negb (str_eqb (fst kv) (lit key))) params.

Definition query_params_eqb (a b : query_params) : bool :=
  match a, b with
  | query_params_sentiment, query_params_sentiment => true
  | query_params_gold, query_params_gold => true
  | query_params_summary, query_params_summary => true
  | _, _ => false
  end.

(** The first statements of [predict]: [get_query_params] returns the
    dict of [src.config.query_config] itself, not a copy, so what is
    popped is gone from the configuration. *)
Definition predict_params (dataset_name : str) (config : query_params -> dict)
  : result (query_params * (query_params -> dict)) :=
  bind (get_query_params dataset_name) (fun params =>
    let popped :=
      pop "max_context_length"
        (pop "custom_retry_delay" (pop "custom_max_retries" (config params))) in
    Ok (params,
        fun q => if query_params_eqb q params then popped else config q)).

(** [prompt_separator] *)
Definition prompt_separator (dataset_name : str) : option str :=
  if contains (lit "sentiment") dataset_name then Some (lit "Final Label: ")
  else if contains (lit "gold") dataset_name then Some (lit "FINAL CLASSIFICATION: ")
  else if contains (lit "summary") dataset_name then Some (lit "FINAL SUMMARY OF YOUR TEXT: ")
  else None.

(** [completion.find(sep)]: the least index at which [sep] stands. *)
Fixpoint find (sep s : str) : option nat :=
  if startswith sep s then Some 0
  else match s with
       | [] => None
       | _ :: s' => option_map S (find sep s')
       end.

(** What is kept of a completion: nothing when the separator is not in
    it ([continue]), else the text after its first occurrence, stripped. *)
Definition completion_of (prompt_separator completion : str) : option str :=
  match find prompt_separator completion with
  | None => None
  | Some label_pos =>
      Some (strip (skipn (label_pos + List.length prompt_separator) completion))
  end.

End HF.

Local Close Scope string_scope.

(* ================================================================== *)
(** * Vocabulary of the statements *)
(* ================================================================== *)

(** ** Texts *)

(** The number of newlines a text starts with. *)
Fixpoint lead (s : str) : nat :=
  match s with
  | c :: s' => if (c =? nl)%N then S (lead s') else 0
  | [] => 0
  end.

(** No three newlines in a row. *)
Fixpoint no3 (s : str) : bool :=
  match s with
  | [] => true
  | c :: s' => (negb (c =? nl)%N || (lead s' <? 2)) && no3 s'
  end.

(** The number of places of [t] at which [w] stands. *)
Fixpoint occurrences (w t : str) : nat :=
  (if startswith w t then 1 else 0) +
  match t with
  | [] => 0
  | _ :: t' => occurrences w t'
  end.

(** ** Matches *)

(** What [Re.sub] puts for a token, and the matched texts of a token
    list, as [Re.sub] and [Re.findall] have them inline. *)
Definition emit (repl : str) (t : Re.token) : str :=
  match t with Re.Keep c => [c] | Re.Hit _ _ => repl end.

Definition wholes (ts : list Re.token) : list str :=
  flat_map (fun t => match t with Re.Keep _ => [] | Re.Hit w _ => [w] end) ts.

(** [Re.text] on a list of characters. *)
Definition text_of (l : list ascii) : Re.regex :=
  fold_right (fun a r => Re.Seq (Re.chr a) r) Re.Eps l.

(** The continuation [Re.match_at] ends a match with. *)
Definition final (must : bool) (cu : Re.cursor) : option Re.cursor :=
  if must && (Re.consumed cu =? 0) then None else Some cu.

(** The text starts with the literal [l], as the flags compare
    characters. *)
Fixpoint matches_prefix (f : Re.flags) (l : list ascii) (s : str) : bool :=
  match l with
  | [] => true
  | a :: l' =>
      match s with
      | x :: s' => Re.chr_eqb f (N_of_ascii a) x && matches_prefix f l' s'
      | [] => false
      end
  end.

(** The text up to the first place where [l] stands. *)
Fixpoint cut_at (f : Re.flags) (l : list ascii) (s : str) : str :=
  match s with
  | [] => []
  | x :: s' => if matches_prefix f l s then [] else x :: cut_at f l s'
  end.



(** ** Votes *)

Section Counting.

Context {A : Type} `{Hashable A}.

(** How often [x] stands in [l]. *)
Definition count (x : A) (l : list A) : nat :=
  List.length (filter (fun y => item_eqb y x) l).

(** The count a counter holds for [y]. *)
Fixpoint tally (counter : list (A * nat)) (y : A) : nat :=
  match counter with
  | [] => 0
  | (k, n) :: counter' => if item_eqb k y then n else tally counter' y
  end.

End Counting.

Section DictVocabulary.

Context {K V : Type} `{Hashable K} `{Hashable V}.

(** The values the pairs give for [key], in order. *)
Definition values_of (key : K) (pairs : list (K * V)) : list V :=
  flat_map (fun kv => if item_eqb (fst kv) key then [snd kv] else []) pairs.

(** The values the responses give for [key], in order. *)
Definition values_for (key : K) (responses : list (list (K * V))) : list V :=
  values_of key (concat responses).

(** The list a dict of lists holds for [key]. *)
Fixpoint held (majority_dict : list (K * list V)) (key : K) : list V :=
  match majority_dict with
  | [] => []
  | (k, vs) :: rest => if item_eqb k key then vs else held rest key
  end.

Definition append_pair (md : list (K * list V)) (kv : K * V) :=
  append_value md (fst kv) (snd kv).

(** What the first loop of [find_majority_dict] keeps true: the keys are
    distinct, and no list is empty. *)
Definition well_formed (md : list (K * list V)) : Prop :=
  NoDup (map fst md) /\ Forall (fun e => snd e <> []) md.

End DictVocabulary.

(** ** Gold *)

Definition is_dict (v : pyval) : bool :=
  match v with PDict _ => true | _ => false end.

Definition is_str (v : pyval) : bool :=
  match v with PStr _ => true | _ => false end.

(** The result with every key at -1. *)
Definition all_invalid : dict :=
  map (fun key => (lit key, PInt (-1))) expected_keys.

(** The entry of the result for [key], given the dict that was parsed. *)
Definition label_of (d : dict) (key : string) : pyval :=
  match dict_get d (lit key) with
  | Some v => if in_0_1 v then v else PInt (-1)
  | None => PInt (-1)
  end.




(** ** Sample inputs *)




(** Two lines, the first with a note. *)
Definition note_then_line : str :=
  lit "Point A (Note: x)" ++ nl :: lit "Point B".



Definition negative_not_positive : str :=
  lit "I think the sentiment is negative, not positive".

(** ** Keywords in a text *)

(** The places at which [w] stands, below [n]: none. *)
Definition clear_ahead (w : str) (n : nat) (s : str) : Prop :=
  forall j, j < n -> startswith w (skipn j s) = false.

(** How often the three keywords stand in a text, together. *)
Definition mentions (t : str) : nat :=
  list_sum (map (fun kv => occurrences (lit (fst kv)) t) mapping).

(** The text the keywords are looked up in. *)
Definition normalized (text : str) : str := lower (strip text).

(** ** Results of the Gold extraction *)

(** A value a result entry can hold: -1, or what compared equal to 0 or 1. *)
Definition valid_entry (v : pyval) : Prop := v = PInt (-1) \/ in_0_1 v = true.

(** What the last loop of [clean_llm_output_gold] makes of [parsed_data]:
    a dict gives its labels; a list or a [str] in which an expected key
    is found is then indexed by that key, which raises; a list or a [str]
    without one leaves the result as it was initialised; any other value
    cannot be searched for a key. *)
Definition gold_outcome (parsed_data : pyval) : result dict :=
  match parsed_data with
  | PDict d => Ok (map (fun key => (lit key, label_of d key)) expected_keys)
  | PList l =>
      if existsb (fun key => existsb (fun v => eq_str v (lit key)) l) expected_keys
      then Raise TypeError else Ok all_invalid
  | PStr s =>
      if existsb (fun key => contains (lit key) s) expected_keys
      then Raise TypeError else Ok all_invalid
  | _ => Raise TypeError
  end.

(** ** Subsequences *)

(** [l] is [l'] with some places left out. *)
Inductive subseq {A : Type} : list A -> list A -> Prop :=
| subseq_nil : subseq [] []
| subseq_skip x l l' : subseq l l' -> subseq l (x :: l')
| subseq_keep x l l' : subseq l l' -> subseq (x :: l) (x :: l').

Definition backtick : char := ord "`".

(** ** Requests and waits *)

(** [k] failed attempts, each followed by a wait. *)
Definition retries (req : Ollama.request) (retry_delay : pyval) (k : nat)
  : Ollama.trace :=
  concat (repeat [Ollama.Chat req; Ollama.Sleep retry_delay] k).

(** What cleaning makes of the [None] of a client that gave up. *)
Definition cleaned_none (dataset_name : str) : result pyval :=
  if contains (lit "sentiment") dataset_name then Ok (PInt (-1))
  else if contains (lit "gold") dataset_name then Ok (PDict all_invalid)
  else if contains (lit "summary") dataset_name then Raise TypeError
  else Ok PNone.

(** The names [predict] pops. *)
Definition popped_keys : list string :=
  ["custom_max_retries"; "custom_retry_delay"; "max_context_length"]%string.

(** A configuration, a server that fails twice and then answers, one that
    always fails, and a clock that accepts every wait. *)
Definition sample_params : dict :=
  [ (lit "temperature", PFloat (FDec 1 (-1))); (lit "seed", PInt 42);
    (lit "max_new_tokens", PInt 64);
    (lit "custom_max_retries", PInt 3); (lit "custom_retry_delay", PInt 5) ].

Definition answers_third (tr : Ollama.trace) (_ : Ollama.request) : result pyval :=
  if List.length tr <? 4 then Raise ValueError else Ok (PStr (lit "positive")).

Definition never_answers (_ : Ollama.trace) (_ : Ollama.request) : result pyval :=
  Raise ValueError.

Definition clock (_ : pyval) : result unit := Ok tt.

(* ================================================================== *)
(** * Facts about the matcher *)
(* ================================================================== *)

Section MatcherFacts.

Import Re.

Lemma scan_S_cons f r k p x s :
  scan f r (S k) p (x :: s) = scan f r k (Some x) s.
Proof. reflexivity. Qed.

Lemma scan_0_miss f r p s :
  match_at f r false p s = None ->
  scan f r 0 p s = match s with
                   | x :: s' => Keep x :: scan f r 0 (Some x) s'
                   | [] => []
                   end.
Proof. intros E. destruct s; simpl; rewrite E; reflexivity. Qed.

Lemma scan_0_hit f r p s len gs :
  match_at f r false p s = Some (S len, gs) ->
  scan f r 0 p s = Hit (firstn (S len) s) gs ::
                   match s with
                   | x :: s' => scan f r len (Some x) s'
                   | [] => []
                   end.
Proof. intros E. destruct s; simpl; rewrite E; reflexivity. Qed.

(** Walking through a match is skipping it. *)
Lemma scan_skip f r : forall s skip p,
  skip <= List.length s ->
  exists p', scan f r skip p s = scan f r 0 p' (skipn skip s).
Proof.
  induction s as [|x s IH]; intros skip p Hle.
  - simpl in Hle. assert (skip = 0) by lia. subst. exists p. reflexivity.
  - destruct skip as [|k].
    + exists p. reflexivity.
    + rewrite scan_S_cons. simpl in Hle.
      destruct (IH k (Some x)) as [p' E]; [lia|].
      exists p'. exact E.
Qed.

Lemma sub_unfold f r repl s :
  sub f r repl s = flat_map (emit repl) (scan f r 0 None s).
Proof. reflexivity. Qed.



(** A literal pattern matches where the text starts with it. *)
Lemma run_text : forall l cu,
  exists p', forall k,
    run no_flags (text_of l) cu k =
    if startswith (map N_of_ascii l) (rest cu)
    then k (Cursor p' (skipn (List.length l) (rest cu))
                   (consumed cu + List.length l) (groups cu))
    else None.
Proof.
  induction l as [|a l IH]; intros [p s n g].
  - exists p. intros k. simpl. rewrite Nat.add_0_r. reflexivity.
  - destruct s as [|x s].
    + exists p. intros k. reflexivity.
    + destruct (IH (Cursor (Some x) s (S n) g)) as [p' E].
      exists p'. intros k. cbn [text_of fold_right run rest chr].
      cbn [cset_match chr_eqb no_flags IGNORECASE]. cbn [map startswith].
      rewrite (N.eqb_sym (N_of_ascii a) x).
      destruct (x =? N_of_ascii a)%N; cbn [andb]; [|reflexivity].
      cbn [consumed groups]. fold (text_of l). rewrite E. cbn [rest consumed groups].
      cbn [List.length skipn]. rewrite Nat.add_succ_r. reflexivity.
Qed.

Lemma match_text (w : string) (p : option char) (s : str) :
  match_at no_flags (text w) false p s =
  if startswith (lit w) s then Some (List.length (lit w), []) else None.
Proof.
  unfold match_at, text. fold (text_of (list_ascii_of_string w)).
  destruct (run_text (list_ascii_of_string w) (Cursor p s 0 [])) as [p' E].
  rewrite E. unfold lit. cbn [rest andb consumed groups].
  rewrite length_map. destruct (startswith _ s); reflexivity.
Qed.

(** [\n{3,}] takes all the newlines ahead when they are 3 or more. *)
Lemma rep_newlines : forall s lo p n g,
  exists p',
  rep_chars no_flags (Chr nl) true (fun cu => Some cu) lo None p n g s =
  if lo <=? lead s then Some (Cursor p' (skipn (lead s) s) (n + lead s) g) else None.
Proof.
  induction s as [|x s IH]; intros lo p n g.
  - exists p. destruct lo; simpl; [rewrite Nat.add_0_r|]; reflexivity.
  - simpl. unfold chr_eqb; simpl.
    destruct (x =? nl)%N eqn:E; simpl.
    + destruct (IH (pred lo) (Some x) (S n) g) as [p' IHe]. exists p'.
      destruct lo as [|lo]; simpl in *.
      * rewrite IHe. simpl. rewrite Nat.add_succ_r. reflexivity.
      * rewrite IHe. rewrite Nat.add_succ_r. reflexivity.
    + exists p. destruct lo; simpl; [rewrite Nat.add_0_r|]; reflexivity.
Qed.

Lemma match_blank_lines p s :
  match_at no_flags re_blank_lines false p s =
  if 3 <=? lead s then Some (lead s, []) else None.
Proof.
  unfold match_at, re_blank_lines, at_least. simpl run.
  destruct (rep_newlines s 3 p 0 []) as [p' E].
  simpl andb. cbv beta. rewrite E. destruct (3 <=? lead s); reflexivity.
Qed.

End MatcherFacts.

(* ================================================================== *)
(** * Facts about the decoder *)
(* ================================================================== *)

Section DecoderFacts.

Import Json.

Lemma skip_ws_le s : List.length (skip_ws s) <= List.length s.
Proof.
  induction s as [|c s IH]; simpl; [lia|]. destruct (is_ws c); simpl; lia.
Qed.

Lemma scanstring_lt : forall n s acc x r,
  List.length s <= n -> scanstring s acc = Some (x, r) ->
  List.length r < List.length s.
Proof.
  induction n as [|n IH]; intros s acc x r L E.
  - destruct s; [discriminate | simpl in L; lia].
  - destruct s as [|c s1]; [discriminate|]. cbn [scanstring] in E. cbn [List.length] in L.
    destruct (c =? dquote)%N.
    { injection E as _ <-. cbn [List.length]. lia. }
    destruct (c =? backslash)%N.
    + destruct s1 as [|e s2]; [discriminate|]. simpl in L.
      destruct (e =? ord "u")%N.
      * destruct s2 as [|a [|b [|c' [|d s3]]]]; try discriminate.
        cbn [List.length] in L.
        destruct (hex4 a b c' d) as [u|]; [|discriminate].
        assert (T : forall acc', scanstring s3 acc' = Some (x, r) ->
                                 List.length r < List.length s3)
          by (intros acc'; apply IH; lia).
        destruct s3 as [|b1 [|u1 [|a2 [|b2 [|c2 [|d2 s4]]]]]];
          try (apply T in E; cbn [List.length] in *; lia).
        destruct (is_high_surrogate u && (b1 =? backslash)%N && (u1 =? ord "u")%N);
          [|apply T in E; cbn [List.length] in *; lia].
        destruct (hex4 a2 b2 c2 d2) as [u2|]; [|discriminate].
        destruct (is_low_surrogate u2); [|apply T in E; cbn [List.length] in *; lia].
        apply IH in E; cbn [List.length] in *; lia.
      * destruct (unescape e); [|discriminate].
        apply IH in E; cbn [List.length] in *; lia.
    + destruct (c <=? 31)%N; [discriminate|].
      apply IH in E; cbn [List.length] in *; lia.
Qed.

Lemma span_digits_le : forall s ds r,
  span_digits s = (ds, r) -> List.length r <= List.length s.
Proof.
  induction s as [|c s IH]; intros ds r E; simpl in E.
  - injection E as _ <-. simpl; lia.
  - destruct (isdigit c).
    + destruct (span_digits s) as [ds' r'] eqn:S. injection E as _ <-.
      specialize (IH _ _ eq_refl). simpl. lia.
    + injection E as _ <-. lia.
Qed.

Lemma number_sign_le s : List.length (snd (number_sign s)) <= List.length s.
Proof.
  destruct s as [|c s]; cbn [number_sign]; [simpl; lia|].
  destruct (c =? ord "-")%N; cbn [snd List.length]; lia.
Qed.

Lemma number_int_lt s ip r :
  number_int s = Some (ip, r) -> List.length r < List.length s.
Proof.
  destruct s as [|d s]; cbn [number_int List.length]; [discriminate|].
  destruct (d =? ord "0")%N.
  - intros E. injection E as _ <-. lia.
  - destruct (isdigit d); [|discriminate].
    destruct (span_digits s) as [ds r'] eqn:S. apply span_digits_le in S.
    intros E. injection E as _ <-. lia.
Qed.

Lemma number_frac_le s : List.length (snd (number_frac s)) <= List.length s.
Proof.
  destruct s as [|p [|d s]]; cbn [number_frac snd List.length]; try lia.
  destruct ((p =? ord ".")%N && isdigit d); cbn [snd List.length]; [|lia].
  destruct (span_digits s) as [ds r'] eqn:S. apply span_digits_le in S.
  cbn [snd]. lia.
Qed.

Lemma exponent_sign_le s : List.length (snd (exponent_sign s)) <= List.length s.
Proof.
  destruct s as [|c s]; cbn [exponent_sign snd List.length]; [lia|].
  destruct (c =? ord "-")%N; cbn [snd List.length]; [lia|].
  destruct (c =? ord "+")%N; cbn [snd List.length]; lia.
Qed.

Lemma number_exp_le s : List.length (snd (number_exp s)) <= List.length s.
Proof.
  destruct s as [|e s]; cbn [number_exp snd List.length]; [lia|].
  destruct ((e =? ord "e") || (e =? ord "E"))%N; cbn [snd List.length]; [|lia].
  pose proof (exponent_sign_le s) as L.
  destruct (exponent_sign s) as [eneg r]. cbn [snd] in L.
  destruct (span_digits r) as [[|d ds] r'] eqn:S; apply span_digits_le in S;
    cbn [snd List.length]; lia.
Qed.

Lemma match_number_lt s v r :
  match_number s = Some (v, r) -> List.length r < List.length s.
Proof.
  unfold match_number.
  pose proof (number_sign_le s) as L0.
  destruct (number_sign s) as [neg s1]. cbn [snd] in L0.
  destruct (number_int s1) as [[ip r0]|] eqn:I; [|discriminate].
  apply number_int_lt in I.
  pose proof (number_frac_le r0) as L1.
  destruct (number_frac r0) as [frac r1]. cbn [snd] in L1.
  pose proof (number_exp_le r1) as L2.
  destruct (number_exp r1) as [exp r2]. cbn [snd] in L2.
  destruct frac, exp; intros E; injection E as _ <-; lia.
Qed.

Lemma literal_lt word v s v' r :
  word <> EmptyString -> literal word v s = Some (v', r) ->
  List.length r < List.length s.
Proof.
  unfold literal. intros NE. destruct (startswith (lit word) s) eqn:S; [|discriminate].
  intros E. injection E as _ <-. rewrite length_skipn.
  destruct word as [|a word]; [contradiction|].
  destruct s as [|c s]; [discriminate|]. cbn [String.length List.length]. lia.
Qed.

(** What a call returns lies behind at least one character. *)
Lemma scan_consumes : forall fuel,
  (forall s v r, scan_once fuel s = Some (v, r) -> List.length r < List.length s)
  /\ (forall s ps v r, JSONObject fuel s ps = Some (v, r) ->
                        List.length r < List.length s)
  /\ (forall s vs v r, JSONArray fuel s vs = Some (v, r) ->
                        List.length r < List.length s).
Proof.
  induction fuel as [|fuel (IHs & IHo & IHa)].
  - repeat split; intros; discriminate.
  - repeat split.
    + intros s v r E. cbn [scan_once] in E.
      destruct s as [|c s']; [discriminate|].
      destruct (c =? dquote)%N.
      { destruct (scanstring s' []) as [[x r']|] eqn:S; [|discriminate].
        apply (scanstring_lt (List.length s')) in S; [|lia].
        injection E as _ <-. cbn [List.length]. lia. }
      destruct (c =? ord "{")%N.
      { pose proof (skip_ws_le s') as W.
        destruct (skip_ws s') as [|c1 s2]; [discriminate|].
        destruct (c1 =? ord "}")%N.
        - injection E as _ <-. cbn [List.length] in *; lia.
        - apply IHo in E. cbn [List.length] in *; lia. }
      destruct (c =? ord "[")%N.
      { pose proof (skip_ws_le s') as W.
        destruct (skip_ws s') as [|c1 s2]; [discriminate|].
        destruct (c1 =? ord "]")%N.
        - injection E as _ <-. cbn [List.length] in *; lia.
        - apply IHa in E. cbn [List.length] in *; lia. }
      unfold Re.orelse in E.
      repeat match type of E with
      | match literal ?w ?x ?y with _ => _ end = _ =>
          let L := fresh "L" in
          destruct (literal w x y) as [[? ?]|] eqn:L;
          [apply literal_lt in L; [injection E as _ <-; exact L | discriminate]|]
      end.
      apply match_number_lt in E. exact E.
    + intros s ps v r E. cbn [JSONObject] in E.
      destruct s as [|q s1]; [discriminate|].
      destruct (q =? dquote)%N; [|discriminate].
      destruct (scanstring s1 []) as [[key s2]|] eqn:S; [|discriminate].
      apply (scanstring_lt (List.length s1)) in S; [|lia].
      pose proof (skip_ws_le s2) as W2.
      destruct (skip_ws s2) as [|c s3]; [discriminate|].
      destruct (c =? ord ":")%N; [|discriminate].
      pose proof (skip_ws_le s3) as W3.
      destruct (scan_once fuel (skip_ws s3)) as [[value s4]|] eqn:V; [|discriminate].
      apply IHs in V.
      pose proof (skip_ws_le s4) as W4.
      destruct (skip_ws s4) as [|d s5]; [discriminate|].
      destruct (d =? ord "}")%N.
      { injection E as _ <-. cbn [List.length] in *; lia. }
      destruct (d =? ord ",")%N; [|discriminate].
      apply IHo in E. pose proof (skip_ws_le s5). cbn [List.length] in *; lia.
    + intros s vs v r E. cbn [JSONArray] in E.
      destruct (scan_once fuel s) as [[value s1]|] eqn:V; [|discriminate].
      apply IHs in V.
      pose proof (skip_ws_le s1) as W1.
      destruct (skip_ws s1) as [|d s2]; [discriminate|].
      destruct (d =? ord "]")%N.
      { injection E as _ <-. cbn [List.length] in *; lia. }
      destruct (d =? ord ",")%N; [|discriminate].
      apply IHa in E. pose proof (skip_ws_le s2). cbn [List.length] in *; lia.
Qed.

(** Past the bound, the fuel does not matter. *)
Lemma fuel_independent : forall n,
  (forall s f1 f2, List.length s <= n ->
     2 * List.length s + 1 <= f1 -> 2 * List.length s + 1 <= f2 ->
     scan_once f1 s = scan_once f2 s)
  /\ (forall s ps f1 f2, List.length s <= n ->
        2 * List.length s <= f1 -> 2 * List.length s <= f2 ->
        JSONObject f1 s ps = JSONObject f2 s ps)
  /\ (forall s vs f1 f2, List.length s <= n ->
        2 * List.length s + 2 <= f1 -> 2 * List.length s + 2 <= f2 ->
        JSONArray f1 s vs = JSONArray f2 s vs).
Proof.
  induction n as [|n (IHs & IHo & IHa)].
  - repeat split.
    + intros [|c s] [|g1] [|g2] L B1 B2; cbn [List.length] in *; try lia. reflexivity.
    + intros [|c s] ps [|g1] [|g2] L B1 B2; cbn [List.length] in *; try lia;
        reflexivity.
    + intros [|c s] vs [|[|g1]] [|[|g2]] L B1 B2; cbn [List.length] in *; try lia.
      reflexivity.
  - assert (HS : forall s f1 f2, List.length s <= S n ->
              2 * List.length s + 1 <= f1 -> 2 * List.length s + 1 <= f2 ->
              scan_once f1 s = scan_once f2 s).
    { intros [|c s'] [|g1] [|g2] L B1 B2; cbn [List.length] in *; try lia;
        [reflexivity|].
      cbn [scan_once].
      destruct (c =? dquote)%N; [reflexivity|].
      destruct (c =? ord "{")%N.
      { pose proof (skip_ws_le s') as W.
        destruct (skip_ws s') as [|c1 s2]; [reflexivity|].
        destruct (c1 =? ord "}")%N; [reflexivity|].
        apply IHo; cbn [List.length] in *; lia. }
      destruct (c =? ord "[")%N; [|reflexivity].
      pose proof (skip_ws_le s') as W.
      destruct (skip_ws s') as [|c1 s2]; [reflexivity|].
      destruct (c1 =? ord "]")%N; [reflexivity|].
      apply IHa; cbn [List.length] in *; lia. }
    split; [exact HS|]. split.
    + intros [|q s1] ps [|g1] [|g2] L B1 B2; cbn [List.length] in *; try lia;
        try reflexivity.
      cbn [JSONObject].
      destruct (q =? dquote)%N; [|reflexivity].
      destruct (scanstring s1 []) as [[key s2]|] eqn:S; [|reflexivity].
      apply (scanstring_lt (List.length s1)) in S; [|lia].
      pose proof (skip_ws_le s2) as W2.
      destruct (skip_ws s2) as [|c s3]; [reflexivity|].
      destruct (c =? ord ":")%N; [|reflexivity].
      pose proof (skip_ws_le s3) as W3. cbn [List.length] in *.
      rewrite (IHs (skip_ws s3) g1 g2) by lia.
      destruct (scan_once g2 (skip_ws s3)) as [[value s4]|] eqn:V; [|reflexivity].
      apply (proj1 (scan_consumes g2)) in V.
      pose proof (skip_ws_le s4) as W4.
      destruct (skip_ws s4) as [|d s5]; [reflexivity|].
      destruct (d =? ord "}")%N; [reflexivity|].
      destruct (d =? ord ",")%N; [|reflexivity].
      pose proof (skip_ws_le s5) as W5. cbn [List.length] in *.
      apply IHo; lia.
    + intros s vs [|g1] [|g2] L B1 B2; try lia.
      cbn [JSONArray].
      rewrite (HS s g1 g2) by lia.
      destruct (scan_once g2 s) as [[value s1]|] eqn:V; [|reflexivity].
      apply (proj1 (scan_consumes g2)) in V.
      pose proof (skip_ws_le s1) as W1.
      destruct (skip_ws s1) as [|d s2]; [reflexivity|].
      destruct (d =? ord "]")%N; [reflexivity|].
      destruct (d =? ord ",")%N; [|reflexivity].
      pose proof (skip_ws_le s2) as W2. cbn [List.length] in *.
      apply IHa; lia.
Qed.

(** [loads] gives the decoder all the fuel it can use: more would change
    nothing. *)
Theorem loads_fuel_enough (s : str) (extra : nat) :
  scan_once (2 * List.length s + 2 + extra) (skip_ws s)
  = scan_once (2 * List.length s + 2) (skip_ws s).
Proof.
  pose proof (skip_ws_le s) as W.
  apply (proj1 (fuel_independent (List.length (skip_ws s)))); lia.
Qed.

End DecoderFacts.

(* ================================================================== *)
(** * Summary cleaning: the shape of the output *)
(* ================================================================== *)

Section WhitespaceFacts.

Import Re.

Lemma lead_le_length s : lead s <= List.length s.
Proof. induction s as [|c s IH]; simpl; [lia|]. destruct (c =? nl)%N; simpl; lia. Qed.

Lemma lead_skipn s : lead (skipn (lead s) s) = 0.
Proof.
  induction s as [|c s IH]; simpl; [reflexivity|].
  destruct (c =? nl)%N eqn:E; simpl; [exact IH | rewrite E; reflexivity].
Qed.

(** The output of the newline rule, from any place of the text on: it has
    no three newlines in a row, and starts with as many newlines as the
    text does, up to 2. *)
Lemma collapse_scan : forall n s p,
  List.length s <= n ->
  let out := flat_map (emit [nl; nl]) (scan no_flags re_blank_lines 0 p s) in
  no3 out = true /\ lead out = Nat.min (lead s) 2.
Proof.
  induction n as [|n IH]; intros s p Hn; cbv zeta.
  - destruct s; [|simpl in Hn; lia].
    rewrite scan_0_miss by (rewrite match_blank_lines; reflexivity).
    split; reflexivity.
  - destruct (3 <=? lead s) eqn:E3.
    + apply Nat.leb_le in E3.
      destruct s as [|x s]; [simpl in E3; lia|].
      pose proof (match_blank_lines p (x :: s)) as M.
      destruct (lead (x :: s)) as [|len] eqn:EL; [lia|].
      replace (3 <=? S len) with true in M by (symmetry; apply Nat.leb_le; lia).
      rewrite (scan_0_hit _ _ _ _ _ _ M).
      pose proof (lead_le_length (x :: s)) as LL. rewrite EL in LL. simpl in LL, Hn.
      destruct (scan_skip no_flags re_blank_lines s len (Some x)) as [p' Es]; [lia|].
      rewrite Es.
      assert (Hsk : skipn len s = skipn (lead (x :: s)) (x :: s))
        by (rewrite EL; reflexivity).
      destruct (IH (skipn len s) p') as [N L].
      { rewrite length_skipn. lia. }
      rewrite Hsk, lead_skipn in L. rewrite <- Hsk in L. simpl in L.
      cbn [flat_map emit app].
      split.
      * cbn [no3]. change ((nl =? nl)%N) with true. cbn [negb orb].
        cbn [lead]. change ((nl =? nl)%N) with true. rewrite L, N. reflexivity.
      * cbn [lead]. change ((nl =? nl)%N) with true. rewrite L.
        destruct len as [|[|len]]; try lia.
    + apply Nat.leb_gt in E3.
      rewrite scan_0_miss
        by (rewrite match_blank_lines; apply Nat.leb_gt in E3; rewrite E3; reflexivity).
      destruct s as [|x s]; [split; reflexivity|].
      simpl in Hn. destruct (IH s (Some x)) as [N L]; [lia|].
      cbn [flat_map emit app]. cbn [no3 lead]. cbn [lead] in E3.
      destruct (x =? nl)%N eqn:Ex; cbn [negb orb andb].
      * rewrite N, L. split.
        -- rewrite andb_true_r. apply Nat.ltb_lt. lia.
        -- lia.
      * rewrite N. split; reflexivity.
Qed.

Lemma sub_blank_lines_no3 s : no3 (sub no_flags re_blank_lines [nl; nl] s) = true.
Proof. rewrite sub_unfold. apply (collapse_scan (List.length s) s None). lia. Qed.


Lemma no3_tail c s : no3 (c :: s) = true -> no3 s = true.
Proof. simpl. intros H. apply andb_true_iff in H. tauto. Qed.


Lemma no3_no_run : forall a y b, no3 y = true -> y <> a ++ [nl; nl; nl] ++ b.
Proof.
  induction a as [|c a IH]; intros y b H E; subst y.
  - simpl in H. change ((nl =? nl)%N) with true in H. simpl in H. discriminate.
  - simpl app in H. apply no3_tail in H. exact (IH _ b H eq_refl).
Qed.

Lemma no3_suffix : forall a s, no3 (a ++ s) = true -> no3 s = true.
Proof.
  induction a as [|c a IH]; intros s H; [exact H|].
  apply IH. eapply no3_tail. exact H.
Qed.

Lemma lead_app_le : forall s b, lead s <= lead (s ++ b).
Proof.
  induction s as [|c s IH]; intros b; simpl; [lia|].
  destruct (c =? nl)%N; [specialize (IH b); lia | lia].
Qed.

Lemma no3_prefix : forall s b, no3 (s ++ b) = true -> no3 s = true.
Proof.
  induction s as [|c s IH]; intros b H; [reflexivity|].
  simpl in H |- *. apply andb_true_iff in H. destruct H as [H1 H2].
  rewrite (IH _ H2), andb_true_r.
  destruct (c =? nl)%N; simpl in *; [|reflexivity].
  apply Nat.ltb_lt in H1. apply Nat.ltb_lt. pose proof (lead_app_le s b). lia.
Qed.

(** [strip] cuts a text at both ends, down to non-blank characters. *)
Lemma lstrip_suffix : forall s, exists a, s = a ++ lstrip s.
Proof.
  induction s as [|c s [a IH]]; [exists []; reflexivity|].
  simpl. destruct (isspace c).
  - exists (c :: a). simpl. f_equal. exact IH.
  - exists []. reflexivity.
Qed.

Lemma rstrip_prefix s : exists b, s = rstrip s ++ b.
Proof.
  unfold rstrip. destruct (lstrip_suffix (rev s)) as [a E].
  exists (rev a). rewrite <- rev_app_distr, <- E, rev_involutive. reflexivity.
Qed.

Lemma lstrip_head : forall s c r, lstrip s = c :: r -> isspace c = false.
Proof.
  induction s as [|x s IH]; intros c r E; [discriminate|].
  simpl in E. destruct (isspace x) eqn:Ex; [eauto|].
  injection E as <- _. exact Ex.
Qed.

Lemma strip_head s c r : strip s = c :: r -> isspace c = false.
Proof.
  unfold strip. intros E.
  destruct (rstrip_prefix (lstrip s)) as [b Eb]. rewrite E in Eb.
  eapply lstrip_head. exact Eb.
Qed.

Lemma rstrip_last s r c : rstrip s = r ++ [c] -> isspace c = false.
Proof.
  unfold rstrip. intros E.
  apply (f_equal (@rev char)) in E. rewrite rev_involutive, rev_app_distr in E.
  eapply lstrip_head. exact E.
Qed.

Lemma strip_last s r c : strip s = r ++ [c] -> isspace c = false.
Proof. apply rstrip_last. Qed.

Lemma no3_strip s : no3 s = true -> no3 (strip s) = true.
Proof.
  intros H. unfold strip.
  destruct (lstrip_suffix s) as [a Ea].
  destruct (rstrip_prefix (lstrip s)) as [b Eb].
  rewrite Ea in H. apply no3_suffix in H. rewrite Eb in H.
  eapply no3_prefix. exact H.
Qed.




Lemma normalize_whitespace_no3 s : no3 (normalize_whitespace s) = true.
Proof. unfold normalize_whitespace. apply no3_strip, sub_blank_lines_no3. Qed.



End WhitespaceFacts.

(** C10.  For every string, Summary cleaning returns a text that neither
    starts nor ends with a white-space character and that holds no three
    newlines in a row. *)
Theorem summary_output_trimmed_and_compact (x : str) :
  exists y, clean_llm_output_summary (PStr x) = Ok y /\
    (forall c r, y = c :: r -> isspace c = false) /\
    (forall r c, y = r ++ [c] -> isspace c = false) /\
    (forall a b, y <> a ++ [nl; nl; nl] ++ b).
Proof.
  exists (clean_text x). split; [reflexivity|]. unfold clean_text.
  repeat split.
  - intros c r. apply strip_head.
  - intros r c. apply strip_last.
  - intros a b. apply no3_no_run, normalize_whitespace_no3.
Qed.




Section NoteRule.

Import Re.

Lemma run_text_flags f : forall l cu,
  exists p', forall k,
    run f (text_of l) cu k =
    if matches_prefix f l (rest cu)
    then k (Cursor p' (skipn (List.length l) (rest cu))
                   (consumed cu + List.length l) (groups cu))
    else None.
Proof.
  induction l as [|a l IH]; intros [p s n g].
  - exists p. intros k. simpl. rewrite Nat.add_0_r. reflexivity.
  - destruct s as [|x s].
    + exists p. intros k. reflexivity.
    + destruct (IH (Cursor (Some x) s (S n) g)) as [p' E].
      exists p'. intros k. cbn [text_of fold_right run rest chr].
      cbn [cset_match matches_prefix].
      destruct (chr_eqb f (N_of_ascii a) x); cbn [andb]; [|reflexivity].
      cbn [consumed groups]. fold (text_of l). rewrite E. cbn [rest consumed groups].
      cbn [List.length skipn]. rewrite Nat.add_succ_r. reflexivity.
Qed.

(** With DOTALL, [.*$] runs to the end of the text. *)
Lemma rep_dot_to_end : forall s p n g,
  exists p',
    rep_chars fl_is Dot true
              (fun cu => if at_eol fl_is cu then final false cu else None)
              0 None p n g s
    = Some (Cursor p' [] (n + List.length s) g).
Proof.
  induction s as [|x s IH]; intros p n g.
  - exists p. cbn. rewrite Nat.add_0_r. reflexivity.
  - destruct (IH (Some x) (S n) g) as [p' E]. exists p'.
    cbn [rep_chars cset_match fl_is DOTALL orb hi_allows andb pred option_map].
    rewrite E. cbn [orelse List.length]. rewrite Nat.add_succ_r. reflexivity.
Qed.

Lemma match_line_after (phrase : string) (p : option char) (s : str) :
  match_at fl_is (re_line_after phrase) false p s =
  if matches_prefix fl_is (list_ascii_of_string phrase) s
  then Some (List.length s, [])
  else None.
Proof.
  unfold match_at, re_line_after, text. fold (text_of (list_ascii_of_string phrase)).
  fold (final false). cbn [run].
  destruct (run_text_flags fl_is (list_ascii_of_string phrase) (Cursor p s 0 [])) as [p' E].
  rewrite E. cbn [rest consumed groups].
  destruct (matches_prefix fl_is (list_ascii_of_string phrase) s) eqn:M; [|reflexivity].
  unfold star.
  cbn [run prev rest consumed groups].
  destruct (rep_dot_to_end (skipn (List.length (list_ascii_of_string phrase)) s) p'
              (0 + List.length (list_ascii_of_string phrase)) []) as [p'' R].
  rewrite R. cbn [consumed groups]. f_equal. f_equal.
  rewrite length_skipn.
  assert (L : forall l t, matches_prefix fl_is l t = true -> List.length l <= List.length t).
  { induction l as [|a l IH]; intros t H; [simpl; lia|].
    destruct t as [|y t]; [discriminate|]. simpl in H.
    apply andb_true_iff in H. destruct H as [_ H]. apply IH in H. simpl. lia. }
  apply L in M. lia.
Qed.

Lemma scan_past_end f r : forall s p,
  match_at f r false None [] = None ->
  (forall p', match_at f r false p' [] = match_at f r false None []) ->
  scan f r (List.length s) p s = [].
Proof.
  induction s as [|x s IH]; intros p E I.
  - simpl. rewrite I, E. reflexivity.
  - cbn [List.length]. rewrite scan_S_cons. apply IH; assumption.
Qed.

Lemma matches_prefix_nil f a l : matches_prefix f (a :: l) [] = false.
Proof. reflexivity. Qed.

Lemma sub_line_after (phrase : string) a l :
  list_ascii_of_string phrase = a :: l ->
  forall s p,
    flat_map (emit []) (scan fl_is (re_line_after phrase) 0 p s)
    = cut_at fl_is (a :: l) s.
Proof.
  intros P. induction s as [|x s IH]; intros p.
  - rewrite scan_0_miss by (rewrite match_line_after, P; reflexivity). reflexivity.
  - cbn [cut_at]. destruct (matches_prefix fl_is (a :: l) (x :: s)) eqn:M.
    + rewrite (scan_0_hit _ _ _ _ (List.length s) []).
      2:{ rewrite match_line_after, P, M. reflexivity. }
      rewrite scan_past_end; [reflexivity | |].
      * rewrite match_line_after, P. reflexivity.
      * intros p'. rewrite !match_line_after, P. reflexivity.
    + rewrite scan_0_miss by (rewrite match_line_after, P, M; reflexivity).
      cbn [flat_map emit app]. rewrite IH. reflexivity.
Qed.

Lemma cut_at_spec f l : forall s,
  exists dropped, s = cut_at f l s ++ dropped /\
                  (dropped = [] \/ matches_prefix f l dropped = true).
Proof.
  induction s as [|x s (dropped & E & D)].
  - exists []. auto.
  - cbn [cut_at]. destruct (matches_prefix f l (x :: s)) eqn:M.
    + exists (x :: s). auto.
    + exists dropped. split; [cbn; f_equal; exact E | exact D].
Qed.

(** X11.  The rule for the phrases of [phrases_remove_line] keeps the text
    before the first ["(Note:"], in any case of the letters, and drops all
    that follows, line ends included. *)
Lemma note_rule_cuts_to_end (s : str) :
  fold_left (fun t phrase => sub fl_is (re_line_after phrase) [] t)
            phrases_remove_line s
  = cut_at fl_is (list_ascii_of_string "(Note:") s.
Proof.
  cbn [phrases_remove_line fold_left]. rewrite sub_unfold.
  apply (sub_line_after "(Note:" "(" (list_ascii_of_string "Note:")). reflexivity.
Qed.

End NoteRule.

(** C8.  The rule for ["(Note:"] is compiled with DOTALL, so it deletes
    through the end of the text: the line after the note is lost. *)
Theorem note_rule_deletes_following_lines :
  clean_llm_output_summary (PStr note_then_line) = Ok (lit "Point A").
Proof. vm_compute. reflexivity. Qed.

(* ================================================================== *)
(** * Majority voting *)
(* ================================================================== *)

Section VotingFacts.

Context {A : Type} `{Hashable A}.

Lemma item_eqb_refl (x : A) : item_eqb x x = true.
Proof. apply item_eqb_eq. reflexivity. Qed.

Lemma item_eqb_neq (x y : A) : x <> y -> item_eqb x y = false.
Proof.
  intros N. destruct (item_eqb x y) eqn:E; [|reflexivity].
  apply item_eqb_eq in E. contradiction.
Qed.

Lemma count_cons (x y : A) (l : list A) :
  count x (y :: l) = (if item_eqb y x then 1 else 0) + count x l.
Proof. unfold count. simpl. destruct (item_eqb y x); reflexivity. Qed.

Lemma count_le_length (x : A) (l : list A) : count x l <= List.length l.
Proof. unfold count. apply filter_length_le. Qed.

Lemma count_two (x y : A) (l : list A) :
  x <> y -> count x l + count y l <= List.length l.
Proof.
  intros N. induction l as [|z l IH]; [reflexivity|].
  rewrite !count_cons. simpl List.length.
  destruct (item_eqb z x) eqn:Ex, (item_eqb z y) eqn:Ey; try lia.
  apply item_eqb_eq in Ex, Ey. congruence.
Qed.

Lemma count_pos_in (x : A) (l : list A) : 0 < count x l <-> In x l.
Proof.
  induction l as [|z l IH]; [simpl; split; [inversion 1 | tauto]|].
  rewrite count_cons. simpl. destruct (item_eqb z x) eqn:E.
  - apply item_eqb_eq in E. split; [auto | lia].
  - split.
    + intros P. right. apply IH. lia.
    + intros [-> | I]; [rewrite item_eqb_refl in E; discriminate|].
      apply IH in I. lia.
Qed.

Lemma tally_add counter x y :
  tally (counter_add counter x) y
  = tally counter y + (if item_eqb x y then 1 else 0).
Proof.
  induction counter as [|[k n] c IH]; simpl.
  - destruct (item_eqb x y); reflexivity.
  - destruct (item_eqb k x) eqn:Ekx; simpl.
    + apply item_eqb_eq in Ekx. subst k.
      destruct (item_eqb x y); lia.
    + destruct (item_eqb k y) eqn:Eky; [|exact IH].
      apply item_eqb_eq in Eky. subst k.
      rewrite (item_eqb_neq x y); [lia|].
      intros ->. rewrite item_eqb_refl in Ekx. discriminate.
Qed.

Lemma tally_fold : forall l counter y,
  tally (fold_left counter_add l counter) y = tally counter y + count y l.
Proof.
  induction l as [|x l IH]; intros counter y; cbn [fold_left].
  - unfold count. simpl. lia.
  - rewrite IH, tally_add, count_cons. lia.
Qed.

Lemma keys_add counter x k :
  In k (map fst (counter_add counter x)) <-> k = x \/ In k (map fst counter).
Proof.
  induction counter as [|[k' n] c IH]; simpl.
  - intuition.
  - destruct (item_eqb k' x) eqn:E; simpl.
    + apply item_eqb_eq in E. subst. intuition.
    + rewrite IH. intuition.
Qed.

Lemma nodup_add counter x :
  NoDup (map fst counter) -> NoDup (map fst (counter_add counter x)).
Proof.
  induction counter as [|[k n] c IH]; simpl; intros N.
  - constructor; [intros [] | constructor].
  - inversion N as [|? ? Nin Nc]; subst.
    destruct (item_eqb k x) eqn:E; simpl.
    + constructor; assumption.
    + constructor; [|auto].
      rewrite keys_add. intros [-> | I]; [|contradiction].
      rewrite item_eqb_refl in E. discriminate.
Qed.

Lemma nodup_fold : forall l counter,
  NoDup (map fst counter) -> NoDup (map fst (fold_left counter_add l counter)).
Proof.
  induction l as [|x l IH]; intros counter N; simpl; [exact N|].
  apply IH, nodup_add, N.
Qed.

Lemma keys_fold : forall l counter k,
  In k (map fst (fold_left counter_add l counter)) ->
  In k (map fst counter) \/ In k l.
Proof.
  induction l as [|x l IH]; intros counter k I; simpl in *; [auto|].
  apply IH in I. rewrite keys_add in I. intuition.
Qed.

Lemma tally_entry counter k n :
  NoDup (map fst counter) -> In (k, n) counter -> tally counter k = n.
Proof.
  induction counter as [|[k' n'] c IH]; simpl; intros N I; [contradiction|].
  inversion N as [|? ? Nin Nc]; subst.
  destruct I as [E | I].
  - injection E as -> ->. rewrite item_eqb_refl. reflexivity.
  - destruct (item_eqb k' k) eqn:E; [|auto].
    apply item_eqb_eq in E. subst k'.
    exfalso. apply Nin. apply (in_map fst) in I. exact I.
Qed.

Lemma tally_pos_entry counter y :
  0 < tally counter y -> In (y, tally counter y) counter.
Proof.
  induction counter as [|[k n] c IH]; simpl; [lia|].
  destruct (item_eqb k y) eqn:E; [|auto].
  apply item_eqb_eq in E. subst. auto.
Qed.

Lemma Counter_entry l k n : In (k, n) (Counter l) -> n = count k l /\ In k l.
Proof.
  intros I. unfold Counter in *. split.
  - pose proof (tally_entry _ _ _ (nodup_fold l [] (NoDup_nil _)) I) as T.
    rewrite tally_fold in T. simpl in T. lia.
  - apply (in_map fst) in I. apply keys_fold in I. simpl in I. tauto.
Qed.

Lemma Counter_has l y : In y l -> In (y, count y l) (Counter l).
Proof.
  intros I. apply count_pos_in in I.
  pose proof (tally_fold l [] y) as T. simpl in T. unfold Counter.
  rewrite <- T. apply tally_pos_entry. lia.
Qed.

Lemma max_count_in : forall (items : list (A * nat)) best,
  In (max_count best items) (best :: items).
Proof.
  induction items as [|it items IH]; intros best; simpl; [auto|].
  destruct (snd best <? snd it).
  - destruct (IH it) as [E | I]; auto.
  - destruct (IH best) as [E | I]; auto.
Qed.

Lemma max_count_ge : forall (items : list (A * nat)) best it,
  In it (best :: items) -> snd it <= snd (max_count best items).
Proof.
  induction items as [|i items IH]; intros best it I; simpl.
  - destruct I as [<- | []]. lia.
  - destruct (snd best <? snd i) eqn:E.
    + apply Nat.ltb_lt in E. destruct I as [<- | I].
      * specialize (IH i i (or_introl eq_refl)). lia.
      * apply IH. exact I.
    + apply Nat.ltb_ge in E. destruct I as [<- | [<- | I]].
      * apply IH. left. reflexivity.
      * specialize (IH best best (or_introl eq_refl)). lia.
      * apply IH. right. exact I.
Qed.

(** What [most_common(1)] yields on a non-empty list: an item of the
    list, with its count, which no other count exceeds. *)
Lemma most_common_spec (l : list A) :
  l <> [] ->
  exists m, most_common_1 (Counter l) = [m] /\ In (fst m) l /\
            snd m = count (fst m) l /\ forall y, count y l <= snd m.
Proof.
  intros NE. destruct l as [|x0 l0]; [contradiction|].
  set (l := x0 :: l0) in *.
  pose proof (Counter_has l x0 (or_introl eq_refl)) as I0.
  destruct (Counter l) as [|it items] eqn:EC; [contradiction|].
  exists (max_count it items). split; [reflexivity|].
  pose proof (max_count_in items it) as Im. rewrite <- EC in Im.
  destruct (max_count it items) as [k n] eqn:Em. simpl.
  apply Counter_entry in Im. destruct Im as [-> Ik].
  split; [exact Ik|]. split; [reflexivity|].
  intros y. destruct (count y l) as [|c] eqn:Ey; [lia|].
  assert (Iy : In y l) by (apply count_pos_in; lia).
  apply Counter_has in Iy. rewrite EC in Iy.
  pose proof (max_count_ge items it _ Iy) as G. rewrite Em in G. simpl in G. lia.
Qed.

Lemma find_majority_str_majority (l : list A) (x : A) (g : rng) :
  List.length l < 2 * count x l -> find_majority_str l g = (Ok x, g).
Proof.
  intros M.
  assert (NE : l <> []) by (intros ->; unfold count in M; simpl in M; lia).
  destruct (most_common_spec l NE) as (m & Em & Im & Sm & Gm).
  unfold find_majority_str. rewrite Em.
  pose proof (Gm x) as Gx.
  replace (List.length l <? 2 * snd m) with true
    by (symmetry; apply Nat.ltb_lt; lia).
  unfold ret. f_equal. f_equal.
  destruct (item_eqb (fst m) x) eqn:E; [apply item_eqb_eq in E; exact E|].
  assert (fst m <> x) as N by (intros F; rewrite F, item_eqb_refl in E; discriminate).
  pose proof (count_two _ _ l N). lia.
Qed.

Lemma find_majority_str_tie (l : list A) (g : rng) :
  l <> [] -> (forall x, 2 * count x l <= List.length l) ->
  find_majority_str l g = choice l g.
Proof.
  intros NE T. destruct (most_common_spec l NE) as (m & Em & Im & Sm & Gm).
  unfold find_majority_str. rewrite Em.
  replace (List.length l <? 2 * snd m) with false; [reflexivity|].
  symmetry. apply Nat.ltb_ge. rewrite Sm. apply T.
Qed.

Lemma choice_in (l : list A) (g : rng) :
  l <> [] ->
  exists r, choice l g = (Ok r, fun i => g (S i)) /\
            nth_error l (g 0 mod List.length l) = Some r /\ In r l.
Proof.
  intros NE. unfold choice.
  assert (L : g 0 mod List.length l < List.length l).
  { apply Nat.mod_upper_bound. destruct l; [contradiction | simpl; lia]. }
  destruct (nth_error l (g 0 mod List.length l)) as [r|] eqn:E.
  - exists r. repeat split. eapply nth_error_In; eauto.
  - apply nth_error_None in E. lia.
Qed.

Lemma find_majority_str_in (l : list A) (g : rng) :
  l <> [] -> exists r, fst (find_majority_str l g) = Ok r /\ In r l.
Proof.
  intros NE. destruct (most_common_spec l NE) as (m & Em & Im & Sm & Gm).
  unfold find_majority_str. rewrite Em.
  destruct (List.length l <? 2 * snd m).
  - exists (fst m). split; [reflexivity | exact Im].
  - destruct (choice_in l g NE) as (r & E & _ & I). exists r. rewrite E. auto.
Qed.

End VotingFacts.

(** C2.  On a non-empty sequence: an item that occurs more than [n/2]
    times is returned, whatever the generator holds, and the generator is
    left alone; when no item does, the result is the element at the index
    the generator draws over the whole sequence, so every element can be
    drawn, tied leader or not; and in both cases the result is an element
    of the sequence. *)
Theorem majority_vote {A : Type} `{Hashable A} (responses : list A) (g : rng) :
  responses <> [] ->
  (forall x, List.length responses < 2 * count x responses ->
     find_majority_str responses g = (Ok x, g))
  /\ ((forall x, 2 * count x responses <= List.length responses) ->
      exists r, nth_error responses (g 0 mod List.length responses) = Some r /\
                fst (find_majority_str responses g) = Ok r)
  /\ ((forall x, 2 * count x responses <= List.length responses) ->
      forall i r, nth_error responses i = Some r ->
                  fst (find_majority_str responses (draws i)) = Ok r)
  /\ (exists r, fst (find_majority_str responses g) = Ok r /\ In r responses).
Proof.
  intros NE. repeat split.
  - intros x M. apply find_majority_str_majority, M.
  - intros T. rewrite (find_majority_str_tie responses g NE T).
    destruct (choice_in responses g NE) as (r & E & N & _).
    exists r. rewrite E. auto.
  - intros T i r N. rewrite (find_majority_str_tie responses _ NE T).
    destruct (choice_in responses (draws i) NE) as (r' & E & N' & _).
    rewrite E. simpl. f_equal.
    assert (L : i < List.length responses) by (apply nth_error_Some; congruence).
    simpl in N'. rewrite Nat.mod_small in N' by exact L. congruence.
  - apply find_majority_str_in, NE.
Qed.

(** C2, on two sequences: three of four votes win whatever is drawn, and
    two against two is settled by the draw, here the index 3. *)
Lemma majority_vote_witness :
  find_majority_str [3; 3; 3; 4] (draws 1) = (Ok 3, draws 1)
  /\ fst (find_majority_str [3; 3; 4; 4] (draws 3)) = Ok 4.
Proof.
  split.
  - apply (proj1 (majority_vote [3; 3; 3; 4] (draws 1) ltac:(discriminate))).
    vm_compute. lia.
  - apply (proj1 (proj2 (proj2
             (majority_vote [3; 3; 4; 4] (draws 0) ltac:(discriminate))))).
    + intros x. rewrite !count_cons. change (count x []) with 0.
      cbn [List.length item_eqb Hashable_nat].
      destruct (3 =? x) eqn:E3, (4 =? x) eqn:E4; try lia.
      apply Nat.eqb_eq in E3, E4. lia.
    + reflexivity.
Defined.

Section VotingDictFacts.

Context {K V : Type} `{Hashable K} `{Hashable V}.

Lemma collect_values_concat (responses : list (list (K * V))) :
  collect_values responses = fold_left append_pair (concat responses) [].
Proof.
  unfold collect_values. generalize (@nil (K * list V)) as md.
  induction responses as [|r rs IH]; intros md; cbn [fold_left concat]; [reflexivity|].
  rewrite fold_left_app. apply IH.
Qed.

Lemma held_append (md : list (K * list V)) (key : K) (v : V) (k : K) :
  held (append_value md key v) k
  = held md k ++ (if item_eqb key k then [v] else []).
Proof.
  induction md as [|[k' vs] md IH]; cbn [append_value held].
  - destruct (item_eqb key k); reflexivity.
  - destruct (item_eqb k' key) eqn:E1; cbn [held].
    + apply item_eqb_eq in E1. subst k'.
      destruct (item_eqb key k); [reflexivity | rewrite app_nil_r; reflexivity].
    + destruct (item_eqb k' k) eqn:E2; [|exact IH].
      apply item_eqb_eq in E2. subst k'.
      rewrite (item_eqb_neq key k), app_nil_r; [reflexivity|].
      intros ->. rewrite item_eqb_refl in E1. discriminate.
Qed.

Lemma held_fold : forall (pairs : list (K * V)) md k,
  held (fold_left append_pair pairs md) k = held md k ++ values_of k pairs.
Proof.
  induction pairs as [|kv pairs IH]; intros md k; cbn [fold_left].
  - unfold values_of. cbn. rewrite app_nil_r. reflexivity.
  - rewrite IH. unfold append_pair. rewrite held_append.
    unfold values_of. cbn [flat_map]. rewrite <- app_assoc. reflexivity.
Qed.

Lemma dict_keys_append (md : list (K * list V)) (key : K) (v : V) (k : K) :
  In k (map fst (append_value md key v)) <-> k = key \/ In k (map fst md).
Proof.
  induction md as [|[k' vs] md IH]; cbn [append_value map fst In].
  - intuition.
  - destruct (item_eqb k' key) eqn:E; cbn [map fst In].
    + apply item_eqb_eq in E. subst. intuition.
    + rewrite IH. intuition.
Qed.

Lemma well_formed_append (md : list (K * list V)) (key : K) (v : V) :
  well_formed md -> well_formed (append_value md key v).
Proof.
  intros [N F]. induction md as [|[k' vs] md IH]; cbn [append_value].
  - split; [constructor; [intros [] | constructor] | repeat constructor; discriminate].
  - inversion N as [|? ? Nk Nmd]; subst. inversion F as [|? ? Fk Fmd]; subst.
    destruct (item_eqb k' key) eqn:E.
    + split; [exact N|]. constructor; [|exact Fmd].
      cbn. destruct vs; discriminate.
    + destruct (IH Nmd Fmd) as [N' F'].
      split; [|constructor; assumption].
      cbn [map fst]. constructor; [|exact N'].
      rewrite dict_keys_append. intros [-> | I]; [|contradiction].
      rewrite item_eqb_refl in E. discriminate.
Qed.

Lemma well_formed_fold : forall (pairs : list (K * V)) (md : list (K * list V)),
  well_formed md -> well_formed (fold_left append_pair pairs md).
Proof.
  induction pairs as [|kv pairs IH]; intros md W; cbn [fold_left]; [exact W|].
  apply IH, well_formed_append, W.
Qed.

Lemma held_entry (md : list (K * list V)) (k : K) (vs : list V) :
  NoDup (map fst md) -> In (k, vs) md -> held md k = vs.
Proof.
  induction md as [|[k' vs'] md IH]; cbn [held map fst]; intros N I; [contradiction|].
  inversion N as [|? ? Nk Nmd]; subst. destruct I as [E | I].
  - injection E as -> ->. rewrite item_eqb_refl. reflexivity.
  - destruct (item_eqb k' k) eqn:E; [|auto].
    apply item_eqb_eq in E. subst k'. exfalso. apply Nk.
    apply (in_map fst) in I. exact I.
Qed.

Lemma collect_values_entry (responses : list (list (K * V))) (k : K) (vs : list V) :
  In (k, vs) (collect_values responses) ->
  vs = values_for k responses /\ vs <> [].
Proof.
  rewrite collect_values_concat. intros I.
  assert (W : well_formed (fold_left append_pair (concat responses) (@nil (K * list V)))).
  { apply well_formed_fold. split; constructor. }
  destruct W as [N F]. split.
  - rewrite <- (held_entry _ _ _ N I), held_fold. reflexivity.
  - rewrite Forall_forall in F. apply (F _ I).
Qed.

(** The second loop, one key after the other. *)
Lemma vote_each_spec : forall (entries : list (K * list V)) (g : rng),
  Forall (fun e => snd e <> []) entries ->
  exists d g', vote_each entries g = (Ok d, g') /\
    map fst d = map fst entries /\
    forall k v, In (k, v) d ->
      exists vs, In (k, vs) entries /\ In v vs /\
        forall x, List.length vs < 2 * count x vs -> v = x.
Proof.
  induction entries as [|[k vs] entries IH]; intros g F.
  - exists [], g. repeat split. intros k v [].
  - inversion F as [|? ? Fk Fe]; subst. cbn [snd] in Fk.
    cbn [vote_each]. unfold mbind.
    destruct (find_majority_str_in vs g Fk) as (r & Er & Ir).
    destruct (find_majority_str vs g) as [[a|e] g1] eqn:E1; cbn [fst] in Er; [|discriminate].
    injection Er as ->.
    destruct (IH g1 Fe) as (d & g' & Ed & Kd & Pd). rewrite Ed.
    exists ((k, r) :: d), g'. split; [reflexivity|]. split; [cbn; f_equal; exact Kd|].
    intros k0 v [E | I].
    + injection E as <- <-. exists vs. split; [left; reflexivity|]. split; [exact Ir|].
      intros x M. pose proof (find_majority_str_majority vs x g M) as Q.
      rewrite E1 in Q. injection Q as -> _. reflexivity.
    + destruct (Pd k0 v I) as (vs0 & I0 & Iv & M0).
      exists vs0. split; [right; exact I0 | auto].
Qed.

(** X3.  Gold voting: [find_majority_dict] always returns, and under each key
    puts the strict majority among the values the responses give for that
    key if there is one, and one of those values if there is none. *)
Theorem find_majority_dict_per_key (responses : list (list (K * V))) (g : rng) :
  exists d g', find_majority_dict responses g = (Ok d, g') /\
    forall k v, In (k, v) d ->
      In v (values_for k responses) /\
      forall x, List.length (values_for k responses)
                < 2 * count x (values_for k responses) -> v = x.
Proof.
  unfold find_majority_dict.
  destruct (vote_each_spec (collect_values responses) g) as (d & g' & E & _ & P).
  { apply Forall_forall. intros [k vs] I. apply collect_values_entry in I. tauto. }
  exists d, g'. split; [exact E|].
  intros k v I. destruct (P k v I) as (vs & Ie & Iv & M).
  apply collect_values_entry in Ie. destruct Ie as [-> _]. auto.
Qed.

End VotingDictFacts.

(* ================================================================== *)
(** * Sentiment extraction *)
(* ================================================================== *)

Section LiteralMatches.

Import Re.

Variable w : string.
Variable len : nat.
Hypothesis w_length : List.length (lit w) = S len.

Lemma startswith_nil : startswith (lit w) [] = false.
Proof. destruct (lit w); [discriminate | reflexivity]. Qed.

Lemma literal_hits_le : forall s skip p,
  List.length (wholes (scan no_flags (text w) skip p s)) <= occurrences (lit w) s.
Proof.
  induction s as [|x s IH]; intros skip p.
  - destruct skip; [|simpl; lia].
    rewrite scan_0_miss by (rewrite match_text, startswith_nil; reflexivity).
    simpl. lia.
  - destruct skip as [|k].
    + cbn [occurrences]. destruct (startswith (lit w) (x :: s)) eqn:E.
      * rewrite (scan_0_hit _ _ _ _ len [])
          by (rewrite match_text, E, w_length; reflexivity).
        cbn [wholes flat_map app List.length]. fold (wholes (scan no_flags (text w) len (Some x) s)).
        specialize (IH len (Some x)). lia.
      * rewrite scan_0_miss by (rewrite match_text, E; reflexivity).
        cbn [wholes flat_map app]. fold (wholes (scan no_flags (text w) 0 (Some x) s)).
        specialize (IH 0 (Some x)). simpl. lia.
    + rewrite scan_S_cons. specialize (IH k (Some x)). cbn [occurrences]. lia.
Qed.

Lemma literal_hits_pos : forall s p,
  1 <= occurrences (lit w) s ->
  1 <= List.length (wholes (scan no_flags (text w) 0 p s)).
Proof.
  induction s as [|x s IH]; intros p O.
  - simpl in O. rewrite startswith_nil in O. simpl in O. lia.
  - cbn [occurrences] in O. destruct (startswith (lit w) (x :: s)) eqn:E.
    + rewrite (scan_0_hit _ _ _ _ len [])
        by (rewrite match_text, E, w_length; reflexivity).
      simpl. lia.
    + rewrite scan_0_miss by (rewrite match_text, E; reflexivity).
      cbn [wholes flat_map app]. apply IH. simpl in O. exact O.
Qed.

Lemma findall_literal_none (s : str) :
  occurrences (lit w) s = 0 -> findall no_flags (text w) s = [].
Proof.
  intros O. pose proof (literal_hits_le s 0 None) as L. rewrite O in L.
  unfold findall, tokens. fold (wholes (scan no_flags (text w) 0 None s)).
  destruct (wholes _); [reflexivity | simpl in L; lia].
Qed.

Lemma findall_literal_once (s : str) :
  occurrences (lit w) s = 1 -> List.length (findall no_flags (text w) s) = 1.
Proof.
  intros O. pose proof (literal_hits_le s 0 None) as L.
  pose proof (literal_hits_pos s None) as P. rewrite O in L, P.
  unfold findall, tokens. fold (wholes (scan no_flags (text w) 0 None s)).
  specialize (P (le_n 1)). lia.
Qed.

End LiteralMatches.

Lemma words_found_two (t : str) :
  occurrences (lit "negative") t = 1 ->
  occurrences (lit "neutral") t = 0 ->
  occurrences (lit "positive") t = 1 ->
  words_found t = [lit "negative"; lit "positive"].
Proof.
  intros N U P. unfold words_found, mapping. cbn [flat_map fst].
  rewrite (findall_literal_once "negative" 7 eq_refl t N).
  rewrite (findall_literal_none "neutral" 6 eq_refl t U).
  rewrite (findall_literal_once "positive" 7 eq_refl t P).
  reflexivity.
Qed.

Lemma not_exact_keyword (t : str) :
  occurrences (lit "negative") t = 1 ->
  occurrences (lit "positive") t = 1 ->
  mapping_get t = Raise KeyError.
Proof.
  intros N P. unfold mapping_get, mapping. cbn [find fst snd].
  destruct (str_eqb (lit "negative") t) eqn:E1.
  { apply str_eqb_eq in E1. subst t. vm_compute in P. discriminate. }
  destruct (str_eqb (lit "neutral") t) eqn:E2.
  { apply str_eqb_eq in E2. subst t. vm_compute in P. discriminate. }
  destruct (str_eqb (lit "positive") t) eqn:E3.
  { apply str_eqb_eq in E3. subst t. vm_compute in N. discriminate. }
  reflexivity.
Qed.

(** C5.  When the trimmed, lowercased text holds "negative" once,
    "positive" once and "neutral" nowhere, sentiment extraction returns 0
    or 2, whatever the generator draws.  (Such a text is none of the three
    keywords itself.) *)
Theorem sentiment_tie_negative_positive (text : str) (g : rng) :
  let normalized := lower (strip text) in
  occurrences (lit "negative") normalized = 1 ->
  occurrences (lit "positive") normalized = 1 ->
  occurrences (lit "neutral") normalized = 0 ->
  fst (clean_llm_output_sentiment (PStr text) g) = Ok 0%Z \/
  fst (clean_llm_output_sentiment (PStr text) g) = Ok 2%Z.
Proof.
  intros t N P U.
  assert (text <> []) as NE.
  { intros ->. vm_compute in N. discriminate. }
  unfold clean_llm_output_sentiment.
  destruct text as [|c text']; [contradiction|].
  fold t. rewrite (not_exact_keyword t N P), (words_found_two t N U P).
  unfold mbind, find_majority.
  replace (contains (lit "sentiment") (lit "sentiment")) with true
    by (vm_compute; reflexivity).
  unfold vote_str, mbind.
  set (l := [lit "negative"; lit "positive"]).
  assert (T : forall x, 2 * count x l <= List.length l).
  { intros x. unfold l. rewrite !count_cons. change (count x []) with 0.
    cbn [List.length].
    destruct (item_eqb (lit "negative") x) eqn:E1,
             (item_eqb (lit "positive") x) eqn:E2; try lia.
    apply item_eqb_eq in E1, E2. subst x. discriminate E2. }
  rewrite (find_majority_str_tie l g ltac:(discriminate) T).
  unfold choice. cbn [List.length l].
  pose proof (Nat.mod_upper_bound (g 0) 2 ltac:(lia)) as B.
  destruct (g 0 mod 2) as [|[|n]]; [left | right | lia]; reflexivity.
Qed.

(** C5, on the sentence of the specification. *)
Lemma sentiment_tie_witness :
  occurrences (lit "negative") (lower (strip negative_not_positive)) = 1
  /\ occurrences (lit "positive") (lower (strip negative_not_positive)) = 1
  /\ occurrences (lit "neutral") (lower (strip negative_not_positive)) = 0
  /\ (fst (clean_llm_output_sentiment (PStr negative_not_positive) (draws 1))
      = Ok 0%Z
      \/ fst (clean_llm_output_sentiment (PStr negative_not_positive) (draws 1))
         = Ok 2%Z).
Proof.
  split; [vm_compute; reflexivity|]. split; [vm_compute; reflexivity|].
  split; [vm_compute; reflexivity|].
  apply sentiment_tie_negative_positive; vm_compute; reflexivity.
Defined.

(** Sentiment extraction returns a label for every text and for [None]. *)
Lemma words_found_keyword (t r : str) :
  In r (words_found t) -> exists label, mapping_get r = Ok label /\ (0 <= label <= 2)%Z.
Proof.
  unfold words_found, mapping. intros I. apply in_flat_map in I.
  destruct I as (kv & Ik & Ir). apply repeat_spec in Ir. subst r.
  cbn in Ik. destruct Ik as [<- | [<- | [<- | []]]].
  - exists 0%Z. split; [vm_compute; reflexivity | lia].
  - exists 1%Z. split; [vm_compute; reflexivity | lia].
  - exists 2%Z. split; [vm_compute; reflexivity | lia].
Qed.

Lemma mapping_get_range (t : str) (label : Z) :
  mapping_get t = Ok label -> (0 <= label <= 2)%Z.
Proof.
  unfold mapping_get, mapping. cbn [find fst snd].
  destruct (str_eqb (lit "negative") t); [intros E; injection E; lia|].
  destruct (str_eqb (lit "neutral") t); [intros E; injection E; lia|].
  destruct (str_eqb (lit "positive") t); [intros E; injection E; lia|].
  discriminate.
Qed.

Theorem sentiment_returns_label (text : pyval) (g : rng) :
  text = PNone \/ is_str text = true ->
  exists label, fst (clean_llm_output_sentiment text g) = Ok label
                /\ (-1 <= label <= 2)%Z.
Proof.
  intros [-> | S]; [exists (-1)%Z; split; [reflexivity | lia]|].
  destruct text as [| | | |s| |]; try discriminate. clear S.
  unfold clean_llm_output_sentiment.
  destruct s as [|c s]; [exists (-1)%Z; split; [reflexivity | lia]|].
  set (t := lower (strip (c :: s))).
  destruct (mapping_get t) as [label|e] eqn:E.
  { exists label. split; [reflexivity|]. apply mapping_get_range in E. lia. }
  destruct (words_found t) as [|w ws] eqn:W.
  { exists (-1)%Z. split; [reflexivity | lia]. }
  unfold mbind, find_majority.
  replace (contains (lit "sentiment") (lit "sentiment")) with true
    by (vm_compute; reflexivity).
  unfold vote_str, mbind.
  destruct (find_majority_str_in (w :: ws) g ltac:(discriminate)) as (r & Er & Ir).
  destruct (find_majority_str (w :: ws) g) as [[a|e'] g'] eqn:F;
    cbn [fst] in Er; [|discriminate].
  injection Er as ->. rewrite <- W in Ir.
  destruct (words_found_keyword t r Ir) as (label & L & B).
  exists label. unfold ret, lift. cbn [fst]. split; [exact L | lia].
Qed.

(* ================================================================== *)
(** * Gold extraction *)
(* ================================================================== *)

Section GoldFacts.

Import Re.









End GoldFacts.



Lemma str_eqb_refl (a : str) : str_eqb a a = true.
Proof. apply str_eqb_eq. reflexivity. Qed.

Lemma dict_set_fresh : forall (pre : dict) k v v0 rest,
  ~ In k (map fst pre) ->
  dict_set (pre ++ (k, v0) :: rest) k v = pre ++ (k, v) :: rest.
Proof.
  induction pre as [|[k' v'] pre IH]; intros k v v0 rest N; cbn [app dict_set].
  - rewrite str_eqb_refl. reflexivity.
  - destruct (str_eqb k' k) eqn:E.
    + apply str_eqb_eq in E. subst. exfalso. apply N. left. reflexivity.
    + rewrite IH; [reflexivity|]. intros I. apply N. right. exact I.
Qed.

Lemma update_result_dict (d : dict) : forall keys pre,
  NoDup (map lit keys) ->
  (forall k, In k keys -> ~ In (lit k) (map fst pre)) ->
  update_result keys (PDict d)
    (pre ++ map (fun key => (lit key, PInt (-1))) keys)
  = Ok (pre ++ map (fun key => (lit key, label_of d key)) keys).
Proof.
  induction keys as [|k keys IH]; intros pre N F; [reflexivity|].
  cbn [map] in N. inversion N as [|? ? Nk Nks]; subst.
  assert (Step : forall v,
    update_result keys (PDict d)
      (pre ++ (lit k, v) :: map (fun key => (lit key, PInt (-1))) keys)
    = Ok (pre ++ (lit k, v) :: map (fun key => (lit key, label_of d key)) keys)).
  { intros v.
    replace (pre ++ (lit k, v) :: map (fun key => (lit key, PInt (-1))) keys)
      with ((pre ++ [(lit k, v)]) ++ map (fun key => (lit key, PInt (-1))) keys)
      by (rewrite <- app_assoc; reflexivity).
    rewrite IH; [rewrite <- app_assoc; reflexivity | exact Nks |].
    intros k' I. rewrite map_app, in_app_iff. cbn. intros [J | [J | []]].
    - apply (F k'); [right; exact I | exact J].
    - apply Nk. rewrite J. apply in_map. exact I. }
  cbn [update_result map py_in bind py_getitem]. unfold label_of.
  destruct (dict_get d (lit k)) as [v|] eqn:G; cbn [bind].
  - destruct (in_0_1 v).
    + rewrite dict_set_fresh by (apply F; left; reflexivity). apply Step.
    + apply Step.
  - apply Step.
Qed.

(** X7.  Whenever what was parsed is a dict, the result holds the 9 keys in
    order, each with the parsed value when that is 0 or 1 and with -1
    otherwise. *)
Theorem gold_result_of_parsed_dict (input_data : pyval) (d : dict) :
  parse_input input_data = PDict d ->
  clean_llm_output_gold input_data
  = Ok (map (fun key => (lit key, label_of d key)) expected_keys).
Proof.
  intros P. unfold clean_llm_output_gold. rewrite P.
  apply (update_result_dict d expected_keys []).
  - vm_compute. repeat (constructor; [intros I; repeat (destruct I as [I | I]; [discriminate I|]); exact I |]). constructor.
  - intros k _ [].
Qed.


(** C1.  The text [5] decodes to an [int], which becomes [parsed_data];
    the test [key in parsed_data] then raises [TypeError], and no mapping
    is returned. *)
Theorem gold_raises_on_json_scalar :
  clean_llm_output_gold (PStr (lit "5")) = Raise TypeError.
Proof. vm_compute. reflexivity. Qed.

(** C9.  An input that is neither a dict nor a string yields the result
    with all 9 keys at -1. *)
Theorem gold_all_invalid_on_other_input (input_data : pyval) :
  is_dict input_data = false -> is_str input_data = false ->
  clean_llm_output_gold input_data = Ok all_invalid.
Proof.
  intros D S. destruct input_data; try discriminate; vm_compute; reflexivity.
Qed.

(** C9, on [None], an integer and a list. *)
Lemma gold_all_invalid_on_other_input_witness :
  clean_llm_output_gold PNone = Ok all_invalid
  /\ clean_llm_output_gold (PInt 7) = Ok all_invalid
  /\ clean_llm_output_gold (PList [PInt 0; PStr (lit "price_up")]) = Ok all_invalid.
Proof.
  split; [|split]; apply gold_all_invalid_on_other_input; reflexivity.
Defined.

(* ================================================================== *)
(** * The dispatchers *)
(* ================================================================== *)

(** C3.  Cleaning raises on inputs it can be given: Summary cleaning on
    [None], which the Ollama client returns after its last failed attempt,
    and Gold cleaning on the text [5]. *)
Theorem cleaning_not_total (g : rng) :
  fst (clean_llm_output (lit "summary") PNone g) = Raise TypeError
  /\ fst (clean_llm_output (lit "gold") (PStr (lit "5")) g) = Raise TypeError.
Proof. split; vm_compute; reflexivity. Qed.

(** C6.  On a dataset name without any of the three keywords,
    [get_query_params] raises [ValueError], while [clean_llm_output] and
    [find_majority] return [None] and raise nothing. *)
Theorem unknown_dataset_dispatch (dataset_name : str) :
  contains (lit "sentiment") dataset_name = false ->
  contains (lit "gold") dataset_name = false ->
  contains (lit "summary") dataset_name = false ->
  get_query_params dataset_name = Raise ValueError
  /\ (forall (text : pyval) (g : rng),
        clean_llm_output dataset_name text g = (Ok PNone, g))
  /\ (forall (rs : responses str str Z) (g : rng),
        find_majority rs dataset_name g = (Ok NoVerdict, g)).
Proof.
  intros S G M. repeat split; intros;
    unfold get_query_params, clean_llm_output, find_majority;
    rewrite S, G, M; reflexivity.
Qed.

(** C6, on the name [imdb_reviews]. *)
Lemma unknown_dataset_dispatch_witness :
  get_query_params (lit "imdb_reviews") = Raise ValueError
  /\ (forall (text : pyval) (g : rng),
        clean_llm_output (lit "imdb_reviews") text g = (Ok PNone, g))
  /\ (forall (rs : responses str str Z) (g : rng),
        find_majority rs (lit "imdb_reviews") g = (Ok NoVerdict, g)).
Proof.
  apply unknown_dataset_dispatch; vm_compute; reflexivity.
Defined.

(* ================================================================== *)
(** * Voting: order, exceptions and keys *)
(* ================================================================== *)

Section VotingMore.

Context {A : Type} `{Hashable A}.

Lemma count_permutation (x : A) (l l' : list A) :
  Permutation l l' -> count x l = count x l'.
Proof.
  intros P. induction P as [|y l l' P IH|y z l|l l' l'' P1 IH1 P2 IH2].
  - reflexivity.
  - rewrite !count_cons, IH. reflexivity.
  - rewrite !count_cons. lia.
  - congruence.
Qed.

(** X1.  With a strict majority the vote does not depend on the order of
    the responses. *)
Theorem majority_order_independent (responses responses' : list A) (x : A) (g : rng) :
  Permutation responses responses' ->
  List.length responses < 2 * count x responses ->
  find_majority_str responses' g = (Ok x, g)
  /\ find_majority_str responses' g = find_majority_str responses g.
Proof.
  intros P M.
  assert (M' : List.length responses' < 2 * count x responses').
  { rewrite <- (count_permutation x _ _ P), <- (Permutation_length P). exact M. }
  rewrite (find_majority_str_majority responses' x g M').
  rewrite (find_majority_str_majority responses x g M). auto.
Qed.

(** X2.  The vote raises on the empty sequence, with [IndexError], and on
    no other. *)
Theorem find_majority_str_raises_iff_empty (responses : list A) (g : rng) :
  (fst (find_majority_str responses g) = Raise IndexError <-> responses = [])
  /\ (forall e, fst (find_majority_str responses g) = Raise e -> e = IndexError).
Proof.
  destruct responses as [|x l].
  - split; [split; reflexivity|]. intros e E. cbn in E. congruence.
  - destruct (find_majority_str_in (x :: l) g ltac:(discriminate)) as (r & E & _).
    rewrite E. split; [split; discriminate | discriminate].
Qed.

End VotingMore.

(** X1, on three responses in two orders. *)
Lemma majority_order_independent_witness :
  find_majority_str [1; 1; 2] (draws 2) = (Ok 1, draws 2)
  /\ find_majority_str [1; 1; 2] (draws 2) = find_majority_str [1; 2; 1] (draws 2).
Proof.
  apply (majority_order_independent [1; 2; 1] [1; 1; 2] 1 (draws 2)).
  - apply perm_skip. apply perm_swap.
  - vm_compute. lia.
Defined.

Section VotingDictMore.

Context {K V : Type} `{Hashable K} `{Hashable V}.

Lemma keys_fold_append : forall (pairs : list (K * V)) (md : list (K * list V)) k,
  In k (map fst (fold_left append_pair pairs md))
  <-> In k (map fst md) \/ In k (map fst pairs).
Proof.
  induction pairs as [|[k' v] pairs IH]; intros md k; cbn [fold_left map fst].
  - cbn. tauto.
  - rewrite IH. unfold append_pair. cbn [fst snd].
    rewrite dict_keys_append. cbn. intuition.
Qed.

(** X4.  The dict vote raises nothing, and its keys are the keys that
    stand in some response, each once. *)
Theorem find_majority_dict_keys (responses : list (list (K * V))) (g : rng) :
  exists d g', find_majority_dict responses g = (Ok d, g') /\
    NoDup (map fst d) /\
    forall k, In k (map fst d) <->
              exists response v, In response responses /\ In (k, v) response.
Proof.
  unfold find_majority_dict.
  assert (W : well_formed (collect_values responses)).
  { rewrite collect_values_concat. apply well_formed_fold. split; constructor. }
  destruct W as [N F].
  destruct (vote_each_spec (collect_values responses) g F) as (d & g' & E & Kd & _).
  exists d, g'. split; [exact E|]. rewrite Kd. split; [exact N|].
  intros k. rewrite collect_values_concat, keys_fold_append. cbn [map In].
  split.
  - intros [[] | I]. apply in_map_iff in I. destruct I as ([k' v] & <- & I).
    apply in_concat in I. destruct I as (response & Ir & Ikv).
    exists response, v. auto.
  - intros (response & v & Ir & Ikv). right.
    apply in_map_iff. exists (k, v). split; [reflexivity|].
    apply in_concat. exists response. auto.
Qed.

End VotingDictMore.

(* ================================================================== *)
(** * Sentiment: the keywords counted *)
(* ================================================================== *)

Section KeywordCounts.

Import Re.

Lemma occurrences_skip (w : str) : forall n s,
  n <= List.length s -> clear_ahead w n s ->
  occurrences w s = occurrences w (skipn n s).
Proof.
  induction n as [|n IH]; intros s L C; [reflexivity|].
  destruct s as [|x s]; [simpl in L; lia|].
  cbn [occurrences skipn]. pose proof (C 0 ltac:(lia)) as C0. cbn [skipn] in C0.
  rewrite C0. cbn [Nat.add].
  apply IH; [simpl in L; lia|].
  intros j J. apply (C (S j)). lia.
Qed.

Lemma startswith_app (w : str) : forall s,
  startswith w s = true -> exists tail, s = w ++ tail.
Proof.
  induction w as [|a w IH]; intros s E; [exists s; reflexivity|].
  destruct s as [|b s]; [discriminate|]. cbn in E.
  apply andb_true_iff in E. destruct E as [E1 E2]. apply N.eqb_eq in E1. subst b.
  destruct (IH s E2) as [tail ->]. exists tail. reflexivity.
Qed.

Lemma startswith_length (w s : str) :
  startswith w s = true -> List.length w <= List.length s.
Proof.
  intros E. destruct (startswith_app w s E) as [tail ->].
  rewrite length_app. lia.
Qed.

Section LiteralCount.

Import Re.

Variable w : string.
Variable len : nat.
Hypothesis w_length : List.length (lit w) = S len.
(* the keyword cannot overlap itself *)
Hypothesis w_apart : forall s j,
  startswith (lit w) s = true -> 1 <= j -> j <= len ->
  startswith (lit w) (skipn j s) = false.

Lemma literal_hits_count : forall n s skip p,
  List.length s <= n -> skip <= List.length s ->
  List.length (wholes (scan no_flags (text w) skip p s))
  = occurrences (lit w) (skipn skip s).
Proof.
  induction n as [|n IH]; intros s skip p L K.
  - destruct s; [|simpl in L; lia]. simpl in K. assert (skip = 0) by lia. subst.
    rewrite scan_0_miss
      by (rewrite match_text, (startswith_nil w len w_length); reflexivity).
    cbn. rewrite (startswith_nil w len w_length). reflexivity.
  - destruct skip as [|k].
    + cbn [skipn]. destruct s as [|x s].
      { rewrite scan_0_miss
          by (rewrite match_text, (startswith_nil w len w_length); reflexivity).
        cbn. rewrite (startswith_nil w len w_length). reflexivity. }
      cbn [occurrences]. destruct (startswith (lit w) (x :: s)) eqn:E.
      * rewrite (scan_0_hit _ _ _ _ len [])
          by (rewrite match_text, E, w_length; reflexivity).
        cbn [wholes flat_map app List.length].
        fold (wholes (scan no_flags (text w) len (Some x) s)).
        pose proof (startswith_length _ _ E) as SL. rewrite w_length in SL.
        simpl in SL, L.
        rewrite (IH s len (Some x)) by lia.
        cbn [Nat.add]. f_equal. symmetry. apply occurrences_skip; [lia|].
        intros j J. apply (w_apart (x :: s) (S j) E); lia.
      * rewrite scan_0_miss by (rewrite match_text, E; reflexivity).
        cbn [wholes flat_map app].
        fold (wholes (scan no_flags (text w) 0 (Some x) s)).
        simpl in L. rewrite (IH s 0 (Some x)) by lia. reflexivity.
    + destruct s as [|x s]; [simpl in K; lia|].
      rewrite scan_S_cons. cbn [skipn]. simpl in L, K. apply IH; lia.
Qed.

Lemma findall_literal_count (s : str) :
  List.length (findall no_flags (text w) s) = occurrences (lit w) s.
Proof.
  unfold findall, tokens. fold (wholes (scan no_flags (text w) 0 None s)).
  apply (literal_hits_count (List.length s) s 0 None); lia.
Qed.

End LiteralCount.

Ltac apart_by_cases :=
  let s := fresh "s" in let j := fresh "j" in let E := fresh "E" in
  intros s j E ? ?;
  apply startswith_app in E; destruct E as [tail ->];
  do 8 (destruct j as [|j]; [try lia; reflexivity|]); lia.

Lemma negative_apart : forall s j,
  startswith (lit "negative") s = true -> 1 <= j -> j <= 7 ->
  startswith (lit "negative") (skipn j s) = false.
Proof. apart_by_cases. Qed.

Lemma neutral_apart : forall s j,
  startswith (lit "neutral") s = true -> 1 <= j -> j <= 6 ->
  startswith (lit "neutral") (skipn j s) = false.
Proof. apart_by_cases. Qed.

Lemma positive_apart : forall s j,
  startswith (lit "positive") s = true -> 1 <= j -> j <= 7 ->
  startswith (lit "positive") (skipn j s) = false.
Proof. apart_by_cases. Qed.

(** [words_found] holds each keyword as often as it stands in the text. *)
Lemma words_found_counts (t : str) :
  words_found t
  = repeat (lit "negative") (occurrences (lit "negative") t)
    ++ repeat (lit "neutral") (occurrences (lit "neutral") t)
    ++ repeat (lit "positive") (occurrences (lit "positive") t).
Proof.
  unfold words_found, mapping. cbn [flat_map fst].
  rewrite (findall_literal_count "negative" 7 eq_refl negative_apart).
  rewrite (findall_literal_count "neutral" 6 eq_refl neutral_apart).
  rewrite (findall_literal_count "positive" 7 eq_refl positive_apart).
  rewrite app_nil_r. reflexivity.
Qed.

Lemma count_app {A : Type} `{Hashable A} (x : A) (l l' : list A) :
  count x (l ++ l') = count x l + count x l'.
Proof. unfold count. rewrite filter_app, length_app. reflexivity. Qed.

Lemma count_repeat {A : Type} `{Hashable A} (x y : A) (k : nat) :
  count x (repeat y k) = if item_eqb y x then k else 0.
Proof.
  induction k as [|k IH]; cbn [repeat].
  - destruct (item_eqb y x); reflexivity.
  - rewrite count_cons, IH. destruct (item_eqb y x); reflexivity.
Qed.

Lemma mentions_sum (t : str) :
  mentions t = occurrences (lit "negative") t + occurrences (lit "neutral") t
               + occurrences (lit "positive") t.
Proof. unfold mentions, mapping, list_sum. cbn [map fold_right fst]. lia. Qed.

(** A text that is a keyword holds that keyword once and no other. *)
Lemma exact_keyword (t : str) (label : Z) :
  mapping_get t = Ok label ->
  exists w, In (w, label) mapping /\ t = lit w /\ mentions t = 1.
Proof.
  unfold mapping_get, mapping. cbn [find fst snd].
  destruct (str_eqb (lit "negative") t) eqn:E1.
  { apply str_eqb_eq in E1. subst t. intros E. injection E as <-.
    exists "negative"%string. cbn. auto. }
  destruct (str_eqb (lit "neutral") t) eqn:E2.
  { apply str_eqb_eq in E2. subst t. intros E. injection E as <-.
    exists "neutral"%string. cbn. auto. }
  destruct (str_eqb (lit "positive") t) eqn:E3.
  { apply str_eqb_eq in E3. subst t. intros E. injection E as <-.
    exists "positive"%string. cbn. auto 6. }
  discriminate.
Qed.

Lemma mapping_get_lit (w : string) (label : Z) :
  In (w, label) mapping -> mapping_get (lit w) = Ok label.
Proof.
  intros I. cbn in I. destruct I as [E | [E | [E | []]]]; injection E as <- <-;
    vm_compute; reflexivity.
Qed.

Lemma mapping_keys (w : string) (label : Z) :
  In (w, label) mapping ->
  w = "negative"%string \/ w = "neutral"%string \/ w = "positive"%string.
Proof.
  intros I. cbn in I. destruct I as [E | [E | [E | []]]]; injection E as <- <-; auto.
Qed.

(** The vote over the keywords found, when one of them is in the strict
    majority. *)
Lemma keyword_vote (t : str) (w : string) (label : Z) (g : rng) :
  In (w, label) mapping ->
  List.length (words_found t) < 2 * count (lit w) (words_found t) ->
  mbind (find_majority (K := str) (V := Z) (Items (words_found t)) (lit "sentiment"))
        (fun majority_word =>
           match majority_word with
           | Item w => lift (mapping_get w)
           | _ => raise KeyError
           end) g
  = (Ok label, g).
Proof.
  intros I M. unfold mbind, find_majority.
  replace (contains (lit "sentiment") (lit "sentiment")) with true
    by (vm_compute; reflexivity).
  unfold vote_str, mbind.
  rewrite (find_majority_str_majority (words_found t) (lit w) g M).
  unfold ret, lift. f_equal. apply mapping_get_lit. exact I.
Qed.

Lemma words_found_length (t : str) :
  List.length (words_found t)
  = occurrences (lit "negative") t + occurrences (lit "neutral") t
    + occurrences (lit "positive") t.
Proof. rewrite words_found_counts, !length_app, !repeat_length. lia. Qed.

Lemma words_found_count (t : str) :
  count (lit "negative") (words_found t) = occurrences (lit "negative") t
  /\ count (lit "neutral") (words_found t) = occurrences (lit "neutral") t
  /\ count (lit "positive") (words_found t) = occurrences (lit "positive") t.
Proof.
  rewrite words_found_counts, !count_app, !count_repeat.
  split; [|split].
  all: repeat match goal with
    | |- context [item_eqb ?a ?b] =>
        let v := eval vm_compute in (item_eqb a b) in
        change (item_eqb a b) with v
    end.
  all: cbv iota.
  all: lia.
Qed.


Lemma words_found_count_of (t : str) (w : string) (label : Z) :
  In (w, label) mapping ->
  count (lit w) (words_found t) = occurrences (lit w) t.
Proof.
  intros I. destruct (words_found_count t) as (Cn & Cu & Cp).
  destruct (mapping_keys w label I) as [-> | [-> | ->]]; assumption.
Qed.

Lemma words_found_in (t : str) (r : str) :
  In r (words_found t) ->
  exists w label, In (w, label) mapping /\ r = lit w /\ 0 < occurrences (lit w) t.
Proof.
  rewrite words_found_counts, !in_app_iff.
  assert (R : forall x k, In r (repeat x k) -> r = x /\ 0 < k).
  { intros x k I. split; [apply (repeat_spec k x r I)|].
    destruct k; [destruct I | lia]. }
  intros [I | [I | I]]; apply R in I; destruct I as [-> P].
  - exists "negative"%string, 0%Z. cbn. auto.
  - exists "neutral"%string, 1%Z. cbn. auto.
  - exists "positive"%string, 2%Z. cbn. auto 6.
Qed.

(** X5.  A keyword that stands in the normalised text more often than the
    other two together decides the label, whatever the generator holds:
    nothing is drawn. *)
Theorem sentiment_majority_of_mentions
  (text : str) (w : string) (label : Z) (g : rng) :
  In (w, label) mapping ->
  mentions (normalized text) < 2 * occurrences (lit w) (normalized text) ->
  clean_llm_output_sentiment (PStr text) g = (Ok label, g).
Proof.
  unfold normalized. intros I M. set (t := lower (strip text)) in *.
  pose proof (words_found_length t) as L. rewrite <- mentions_sum in L.
  pose proof (words_found_count_of t w label I) as C.
  unfold clean_llm_output_sentiment.
  destruct text as [|c text'].
  { subst t. vm_compute in M.
    destruct (mapping_keys w label I) as [-> | [-> | ->]]; vm_compute in M; lia. }
  fold t. destruct (mapping_get t) as [l'|e] eqn:E.
  { destruct (exact_keyword t l' E) as (w' & I' & T & One).
    destruct (Nat.eq_dec (occurrences (lit w) t) 0) as [Z | NZ]; [lia|].
    assert (W : w = w').
    { rewrite T in NZ.
      destruct (mapping_keys w label I) as [-> | [-> | ->]];
        destruct (mapping_keys w' l' I') as [-> | [-> | ->]];
        try reflexivity; exfalso; apply NZ; vm_compute; reflexivity. }
    subst w'. rewrite T, (mapping_get_lit w label I) in E. injection E as <-.
    reflexivity. }
  destruct (words_found t) as [|w0 ws] eqn:W.
  { unfold count in C. cbn [filter List.length] in L, C. lia. }
  rewrite <- W. apply (keyword_vote t w label g I). rewrite W. lia.
Qed.

(** X6.  On every [str] a label is returned, and it is -1 exactly when no
    keyword stands in the normalised text; any other label is that of a
    keyword standing there. *)
Theorem sentiment_label_is_mentioned (text : str) (g : rng) :
  exists label g',
    clean_llm_output_sentiment (PStr text) g = (Ok label, g')
    /\ ((label = (-1)%Z /\ mentions (normalized text) = 0)
        \/ (exists w, In (w, label) mapping
                      /\ 0 < occurrences (lit w) (normalized text))).
Proof.
  unfold normalized, clean_llm_output_sentiment.
  destruct text as [|c text'].
  { exists (-1)%Z, g. split; [reflexivity|]. left. split; reflexivity. }
  set (t := lower (strip (c :: text'))).
  pose proof (words_found_length t) as L. rewrite <- mentions_sum in L.
  destruct (mapping_get t) as [l'|e] eqn:E.
  { exists l', g. split; [reflexivity|]. right.
    destruct (exact_keyword t l' E) as (w' & I' & T & One).
    exists w'. split; [exact I'|].
    destruct (Nat.eq_dec (occurrences (lit w') t) 0) as [Z | NZ]; [|lia].
    exfalso. rewrite T in Z.
    destruct (mapping_keys w' l' I') as [-> | [-> | ->]]; vm_compute in Z; discriminate. }
  destruct (words_found t) as [|w0 ws] eqn:W.
  { exists (-1)%Z, g. split; [reflexivity|]. left. split; [reflexivity|].
    cbn [List.length] in L. lia. }
  rewrite <- W.
  assert (NE : words_found t <> []) by (rewrite W; discriminate).
  unfold mbind, find_majority.
  replace (contains (lit "sentiment") (lit "sentiment")) with true
    by (vm_compute; reflexivity).
  unfold vote_str, mbind.
  destruct (find_majority_str_in (words_found t) g NE) as (r & Er & Ir).
  destruct (find_majority_str (words_found t) g) as [[a|e'] g'] eqn:F;
    cbn [fst] in Er; [|discriminate].
  injection Er as ->.
  destruct (words_found_in t r Ir) as (w & label & I & -> & P).
  exists label, g'. unfold ret, lift. rewrite (mapping_get_lit w label I).
  split; [reflexivity|]. right. exists w. auto.
Qed.

End KeywordCounts.

(** X5, on a text with two mentions of one keyword and one of another. *)
Lemma sentiment_majority_witness :
  clean_llm_output_sentiment
    (PStr (lit "Negative. Not positive, clearly negative!")) (draws 1)
  = (Ok 0%Z, draws 1).
Proof.
  apply (sentiment_majority_of_mentions _ "negative"%string).
  - cbn. auto.
  - vm_compute. lia.
Defined.

(* ================================================================== *)
(** * Gold: what is returned and what is raised *)
(* ================================================================== *)

(** X7, on a dict with a valid, an invalid and an unknown entry. *)
Lemma gold_result_of_parsed_dict_witness :
  clean_llm_output_gold
    (PDict [(lit "price_up", PInt 1); (lit "price_down", PInt 2);
            (lit "volume", PInt 0)])
  = Ok (map (fun key =>
               (lit key,
                label_of [(lit "price_up", PInt 1); (lit "price_down", PInt 2);
                          (lit "volume", PInt 0)] key))
            expected_keys).
Proof.
  apply gold_result_of_parsed_dict. reflexivity.
Defined.

Lemma update_result_searched (p : pyval) (test : string -> bool) :
  (forall key, py_in (lit key) p = Ok (test key)) ->
  (forall key, py_getitem p (lit key) = Raise TypeError) ->
  forall keys result,
    update_result keys p result
    = if existsb test keys then Raise TypeError else Ok result.
Proof.
  intros I G. induction keys as [|k keys IH]; intros result; [reflexivity|].
  cbn [update_result existsb]. rewrite I. cbn [bind].
  destruct (test k); cbn [orb].
  - rewrite G. reflexivity.
  - apply IH.
Qed.

Lemma expected_keys_nodup : NoDup (map lit expected_keys).
Proof.
  vm_compute.
  repeat (constructor;
          [intros I; repeat (destruct I as [I | I]; [discriminate I|]); exact I |]).
  constructor.
Qed.

Lemma gold_outcome_spec (input_data : pyval) :
  clean_llm_output_gold input_data = gold_outcome (parse_input input_data).
Proof.
  unfold clean_llm_output_gold.
  destruct (parse_input input_data) as [|b|z|f|s|l|d]; try reflexivity.
  - apply (update_result_searched (PStr s) (fun key => contains (lit key) s));
      reflexivity.
  - apply (update_result_searched (PList l)
             (fun key => existsb (fun v => eq_str v (lit key)) l)); reflexivity.
  - apply (update_result_dict d expected_keys [] expected_keys_nodup).
    intros k _ [].
Qed.

Lemma label_of_valid (d : dict) (key : string) : valid_entry (label_of d key).
Proof.
  unfold label_of, valid_entry. destruct (dict_get d (lit key)) as [v|]; [|auto].
  destruct (in_0_1 v) eqn:E; auto.
Qed.

Lemma gold_outcome_shape (p : pyval) (r : dict) :
  gold_outcome p = Ok r ->
  map fst r = map lit expected_keys /\ Forall valid_entry (map snd r).
Proof.
  assert (A : map fst all_invalid = map lit expected_keys
              /\ Forall valid_entry (map snd all_invalid)).
  { split; [reflexivity|]. unfold all_invalid. rewrite map_map. cbn [snd].
    apply Forall_forall. intros v I. apply in_map_iff in I.
    destruct I as (k & <- & _). left. reflexivity. }
  destruct p as [|b|z|f|s|l|d]; cbn [gold_outcome]; try discriminate.
  - destruct (existsb _ _); [discriminate|]. intros E. injection E as <-. exact A.
  - destruct (existsb _ _); [discriminate|]. intros E. injection E as <-. exact A.
  - intros E.
    assert (R : r = map (fun key => (lit key, label_of d key)) expected_keys)
      by (injection E as <-; reflexivity).
    subst r. clear E. rewrite !map_map. cbn [fst snd]. split.
    + reflexivity.
    + apply Forall_forall. intros v I. apply in_map_iff in I.
      destruct I as (k & <- & _). apply label_of_valid.
Qed.

(** X8.  Whenever a result is returned, it holds the 9 expected keys, in
    their order, and each value is -1 or compares equal to 0 or 1. *)
Theorem gold_result_shape (input_data : pyval) (r : dict) :
  clean_llm_output_gold input_data = Ok r ->
  map fst r = map lit expected_keys /\ Forall valid_entry (map snd r).
Proof. rewrite gold_outcome_spec. apply gold_outcome_shape. Qed.

Lemma gold_result_shape_witness :
  let r := [ (lit "price_or_not", PInt 1); (lit "price_up", PBool true);
             (lit "price_const_stable", PInt (-1)); (lit "price_down", PInt 0);
             (lit "past_price_info", PInt (-1)); (lit "future_price_info", PInt (-1));
             (lit "past_gen_info", PInt (-1)); (lit "future_gen_info", PInt (-1));
             (lit "asset_comparison", PInt (-1)) ] in
  map fst r = map lit expected_keys /\ Forall valid_entry (map snd r).
Proof.
  apply (gold_result_shape
           (PStr (lit "{'price_or_not': 1, 'price_up': true, 'price_const_stable': 2, 'price_down': 0}"))).
  vm_compute. reflexivity.
Defined.



Lemma dict_get_map (f : string -> pyval) : forall keys k,
  NoDup (map lit keys) -> In k keys ->
  dict_get (map (fun key => (lit key, f key)) keys) (lit k) = Some (f k).
Proof.
  induction keys as [|k0 keys IH]; intros k N I; [destruct I|].
  cbn [map dict_get]. cbn [map] in N. inversion N as [|? ? Nk Nks]; subst.
  destruct (str_eqb (lit k0) (lit k)) eqn:E.
  - apply str_eqb_eq in E. destruct I as [-> | I]; [reflexivity|].
    exfalso. apply Nk. rewrite E. apply in_map. exact I.
  - destruct I as [-> | I]; [rewrite str_eqb_refl in E; discriminate|].
    apply IH; assumption.
Qed.

Lemma label_of_fixed (f : string -> pyval) (k : string) :
  (forall key, valid_entry (f key)) -> In k expected_keys ->
  label_of (map (fun key => (lit key, f key)) expected_keys) k = f k.
Proof.
  intros V I. unfold label_of.
  rewrite (dict_get_map f expected_keys k expected_keys_nodup I).
  destruct (V k) as [-> | ->]; reflexivity.
Qed.

(** X10.  A result, given back as input, is returned as it is. *)
Theorem gold_idempotent (input_data : pyval) (r : dict) :
  clean_llm_output_gold input_data = Ok r ->
  clean_llm_output_gold (PDict r) = Ok r.
Proof.
  rewrite !gold_outcome_spec. cbn [parse_input gold_outcome]. intros E. f_equal.
  assert (F : exists f, (forall key, valid_entry (f key))
                        /\ r = map (fun key => (lit key, f key)) expected_keys).
  { destruct (parse_input input_data) as [|b|z|f|s|l|d]; cbn [gold_outcome] in E;
      try discriminate.
    - destruct (existsb _ _); [discriminate|]. injection E as <-.
      exists (fun _ => PInt (-1)). split; [left; reflexivity | reflexivity].
    - destruct (existsb _ _); [discriminate|]. injection E as <-.
      exists (fun _ => PInt (-1)). split; [left; reflexivity | reflexivity].
    - exists (label_of d). split; [apply label_of_valid|].
      injection E as <-. reflexivity. }
  destruct F as (f & V & ->).
  apply map_ext_in. intros k I. f_equal. apply label_of_fixed; assumption.
Qed.

Lemma gold_idempotent_witness :
  clean_llm_output_gold
    (PDict [ (lit "price_or_not", PInt 1); (lit "price_up", PFloat (FDec 10 (-1)));
             (lit "price_const_stable", PInt (-1)); (lit "price_down", PInt (-1));
             (lit "past_price_info", PInt (-1)); (lit "future_price_info", PInt (-1));
             (lit "past_gen_info", PInt 0); (lit "future_gen_info", PInt (-1));
             (lit "asset_comparison", PInt (-1)) ])
  = Ok [ (lit "price_or_not", PInt 1); (lit "price_up", PFloat (FDec 10 (-1)));
         (lit "price_const_stable", PInt (-1)); (lit "price_down", PInt (-1));
         (lit "past_price_info", PInt (-1)); (lit "future_price_info", PInt (-1));
         (lit "past_gen_info", PInt 0); (lit "future_gen_info", PInt (-1));
         (lit "asset_comparison", PInt (-1)) ].
Proof.
  apply (gold_idempotent
           (PStr (lit "```python
{'past_gen_info': 0, 'price_up': 1.0, 'price_or_not': 1, 'price_down': 7}
```"))).
  vm_compute. reflexivity.
Defined.

(* ================================================================== *)
(** * Summary: only deletions *)
(* ================================================================== *)

Section SubseqFacts.

Context {A : Type}.

Lemma subseq_refl (l : list A) : subseq l l.
Proof. induction l; [apply subseq_nil | apply subseq_keep; assumption]. Qed.

Lemma subseq_nil_l (l : list A) : subseq [] l.
Proof. induction l; constructor; assumption. Qed.

Lemma subseq_trans (a b c : list A) : subseq a b -> subseq b c -> subseq a c.
Proof.
  intros AB BC. revert a AB.
  induction BC as [|x b c BC IH|x b c BC IH]; intros a AB.
  - exact AB.
  - constructor. apply IH. exact AB.
  - inversion AB as [|y a' b' AB'|y a' b' AB']; subst.
    + apply subseq_skip. apply IH. exact AB'.
    + apply subseq_keep. apply IH. exact AB'.
Qed.

Lemma subseq_app (a a' b b' : list A) :
  subseq a a' -> subseq b b' -> subseq (a ++ b) (a' ++ b').
Proof.
  intros SA SB. induction SA; cbn [app];
    [exact SB | apply subseq_skip | apply subseq_keep]; assumption.
Qed.

Lemma subseq_suffix (a b : list A) : subseq b (a ++ b).
Proof.
  induction a; cbn [app]; [apply subseq_refl | apply subseq_skip; assumption].
Qed.

Lemma subseq_prefix (a b : list A) : subseq a (a ++ b).
Proof.
  induction a; cbn [app]; [apply subseq_nil_l | apply subseq_keep; assumption].
Qed.

Lemma subseq_In (a b : list A) (x : A) : subseq a b -> In x a -> In x b.
Proof.
  intros S. induction S; intros I; [exact I | right; auto |].
  destruct I as [-> | I]; [left; reflexivity | right; auto].
Qed.

Lemma subseq_length (a b : list A) : subseq a b -> List.length a <= List.length b.
Proof. intros S. induction S; cbn [List.length]; lia. Qed.

End SubseqFacts.

Section Deletion.

Import Re.

(** A substitution by the empty text only leaves characters out, whatever
    the pattern. *)
Lemma scan_delete_subseq f r : forall s skip p,
  subseq (flat_map (emit []) (scan f r skip p s)) s.
Proof.
  induction s as [|x s IH]; intros skip p.
  - destruct skip as [|skip]; [|constructor].
    cbn [scan].
    destruct (match_at f r false p []) as [[[|len] gs]|]; cbn [flat_map emit app].
    + destruct (match_at f r true p []) as [[[|len'] gs']|]; constructor.
    + constructor.
    + constructor.
  - destruct skip as [|skip].
    + cbn [scan].
      destruct (match_at f r false p (x :: s)) as [[[|len] gs]|];
        cbn [flat_map emit app].
      * destruct (match_at f r true p (x :: s)) as [[[|len'] gs']|];
          cbn [flat_map emit app];
          first [apply subseq_keep; apply IH | apply subseq_skip; apply IH].
      * apply subseq_skip. apply IH.
      * apply subseq_keep. apply IH.
    + rewrite scan_S_cons. apply subseq_skip. apply IH.
Qed.

Lemma sub_delete_subseq f r s : subseq (sub f r [] s) s.
Proof. rewrite sub_unfold. apply scan_delete_subseq. Qed.

Lemma fold_delete_subseq f (re_of : string -> regex) : forall phrases s,
  subseq (fold_left (fun t phrase => sub f (re_of phrase) [] t) phrases s) s.
Proof.
  induction phrases as [|ph phrases IH]; intros s; cbn [fold_left].
  - apply subseq_refl.
  - eapply subseq_trans; [apply IH | apply sub_delete_subseq].
Qed.

Lemma lead_firstn : forall s, firstn (lead s) s = repeat nl (lead s).
Proof.
  induction s as [|c s IH]; [reflexivity|]. cbn [lead].
  destruct (c =? nl)%N eqn:E; [|reflexivity].
  apply N.eqb_eq in E. subst c. cbn [firstn repeat]. f_equal. exact IH.
Qed.

(** The newline rule writes two newlines where it found three or more. *)
Lemma collapse_subseq : forall n s p,
  List.length s <= n ->
  subseq (flat_map (emit [nl; nl]) (scan no_flags re_blank_lines 0 p s)) s.
Proof.
  induction n as [|n IH]; intros s p Hn.
  - destruct s; [|simpl in Hn; lia].
    rewrite scan_0_miss by (rewrite match_blank_lines; reflexivity).
    constructor.
  - destruct (3 <=? lead s) eqn:E3.
    + apply Nat.leb_le in E3.
      destruct s as [|x s]; [simpl in E3; lia|].
      pose proof (match_blank_lines p (x :: s)) as M.
      destruct (lead (x :: s)) as [|len] eqn:EL; [lia|].
      replace (3 <=? S len) with true in M by (symmetry; apply Nat.leb_le; lia).
      rewrite (scan_0_hit _ _ _ _ _ _ M).
      pose proof (lead_le_length (x :: s)) as LL. rewrite EL in LL. simpl in LL, Hn.
      destruct (scan_skip no_flags re_blank_lines s len (Some x)) as [p' Es]; [lia|].
      rewrite Es. cbn [flat_map emit].
      pose proof (lead_firstn (x :: s)) as F. rewrite EL in F.
      rewrite <- (firstn_skipn (S len) (x :: s)) at 1. rewrite F.
      apply subseq_app.
      * destruct len as [|[|len]]; try lia. cbn [repeat].
        do 2 apply subseq_keep. apply subseq_nil_l.
      * cbn [skipn]. apply IH. rewrite length_skipn. lia.
    + apply Nat.leb_gt in E3.
      rewrite scan_0_miss
        by (rewrite match_blank_lines; apply Nat.leb_gt in E3; rewrite E3; reflexivity).
      destruct s as [|x s]; [constructor|].
      cbn [flat_map emit app]. apply subseq_keep. apply IH. simpl in Hn. lia.
Qed.

Lemma strip_subseq (s : str) : subseq (strip s) s.
Proof.
  unfold strip.
  destruct (lstrip_suffix s) as [a Ea].
  destruct (rstrip_prefix (lstrip s)) as [b Eb].
  rewrite Ea at 2. eapply subseq_trans; [|apply subseq_suffix].
  rewrite Eb at 2. apply subseq_prefix.
Qed.

Lemma normalize_whitespace_subseq (s : str) : subseq (normalize_whitespace s) s.
Proof.
  unfold normalize_whitespace.
  eapply subseq_trans; [apply strip_subseq|].
  rewrite sub_unfold. apply (collapse_subseq (List.length s)). lia.
Qed.

Lemma remove_boilerplate_subseq (s : str) : subseq (remove_boilerplate s) s.
Proof.
  unfold remove_boilerplate.
  repeat (eapply subseq_trans;
          [first [apply fold_delete_subseq | apply sub_delete_subseq]|]).
  apply subseq_refl.
Qed.

(** X12.  Summary cleaning only leaves characters out: the cleaned text is
    the input with some of its characters deleted, none added, changed or
    moved. *)
Theorem summary_only_deletes (text : str) :
  exists cleaned_text,
    clean_llm_output_summary (PStr text) = Ok cleaned_text
    /\ subseq cleaned_text text
    /\ List.length cleaned_text <= List.length text.
Proof.
  exists (clean_text text). split; [reflexivity|].
  assert (S : subseq (clean_text text) text).
  { unfold clean_text. eapply subseq_trans;
      [apply normalize_whitespace_subseq | apply remove_boilerplate_subseq]. }
  split; [exact S | apply subseq_length; exact S].
Qed.

(** The greedy repetition, once a character is in: it ends in a match. *)
Lemma rep_greedy_final (f : flags) (c : cset) (must : bool) : forall s p n g,
  0 < n ->
  exists cu, rep_chars f c true (final must) 0 None p n g s = Some cu
             /\ n <= consumed cu.
Proof.
  induction s as [|x s IH]; intros p n g P.
  - cbn [rep_chars orelse]. unfold final. cbn [consumed].
    replace (n =? 0) with false by (symmetry; apply Nat.eqb_neq; lia).
    rewrite andb_false_r. eexists. split; [reflexivity | cbn; lia].
  - cbn [rep_chars]. destruct (cset_match f c x); cbn [andb hi_allows].
    + destruct (IH (Some x) (S n) g ltac:(lia)) as (cu & E & L).
      cbn [pred option_map]. rewrite E. cbn [orelse].
      exists cu. split; [reflexivity | lia].
    + cbn [orelse]. unfold final. cbn [consumed].
      replace (n =? 0) with false by (symmetry; apply Nat.eqb_neq; lia).
      rewrite andb_false_r. eexists. split; [reflexivity | cbn; lia].
Qed.

Lemma match_backticks (must : bool) (p : option char) (s : str) :
  match s with
  | x :: _ =>
      if (x =? backtick)%N
      then exists len gs, match_at no_flags re_backticks must p s = Some (S len, gs)
      else match_at no_flags re_backticks must p s = None
  | [] => match_at no_flags re_backticks must p s = None
  end.
Proof.
  unfold match_at, re_backticks, plus. cbn [run prev consumed groups rest].
  destruct s as [|x s]; [reflexivity|].
  cbn [rep_chars]. unfold cset_match, chr_eqb. cbn [IGNORECASE no_flags].
  fold backtick. destruct (x =? backtick)%N; [|reflexivity].
  cbn [andb hi_allows pred option_map].
  destruct (rep_greedy_final no_flags (Chr backtick) must s (Some x) 1 [] ltac:(lia))
    as (cu & E & L).
  unfold final in E. rewrite E.
  destruct (consumed cu) as [|len] eqn:C; [lia|].
  exists len, (groups cu). reflexivity.
Qed.

Lemma scan_backticks : forall s skip p,
  ~ In backtick (flat_map (emit []) (scan no_flags re_backticks skip p s)).
Proof.
  induction s as [|x s IH]; intros skip p.
  - destruct skip as [|skip]; [|intros []].
    rewrite scan_0_miss by (apply (match_backticks false p [])).
    intros [].
  - destruct skip as [|skip]; [|rewrite scan_S_cons; apply IH].
    pose proof (match_backticks false p (x :: s)) as M. cbv beta iota in M.
    destruct (x =? backtick)%N eqn:E.
    + destruct M as (len & gs & M). rewrite (scan_0_hit _ _ _ _ _ _ M).
      cbn [flat_map emit app]. apply IH.
    + rewrite (scan_0_miss _ _ _ _ M). cbn [flat_map emit app].
      intros [I | I]; [|exact (IH _ _ I)].
      subst x. rewrite N.eqb_refl in E. discriminate.
Qed.

(** X13.  No backtick is left in a cleaned summary. *)
Theorem summary_has_no_backtick (text : str) :
  exists cleaned_text,
    clean_llm_output_summary (PStr text) = Ok cleaned_text
    /\ ~ In backtick cleaned_text.
Proof.
  exists (clean_text text). split; [reflexivity|].
  unfold clean_text, remove_boilerplate. intros I.
  apply (subseq_In _ _ _ (normalize_whitespace_subseq _)) in I.
  do 3 apply (subseq_In _ _ _ (fold_delete_subseq _ _ _ _)) in I.
  rewrite sub_unfold in I. exact (scan_backticks _ _ _ I).
Qed.

End Deletion.

(* ================================================================== *)
(** * The clients *)
(* ================================================================== *)

Section ClientFacts.

Import Ollama.

Variable model_mapping : list (str * dict).
Variable chat : trace -> request -> result pyval.
Variable sleep : pyval -> result unit.
Variable get_samples : str -> result (list pyval).


Lemma retries_S req d k :
  retries req d (S k) = Chat req :: Sleep d :: retries req d k.
Proof. reflexivity. Qed.

Lemma retries_snoc req d k :
  retries req d (S k) = retries req d k ++ [Chat req; Sleep d].
Proof.
  induction k as [|k IH]; [reflexivity|].
  rewrite retries_S, IH at 1. rewrite retries_S. reflexivity.
Qed.

(** Failed attempts that are not the last one: each costs a request and a
    wait, and the loop goes on. *)
Lemma attempts_failed (req : request) (d : pyval) (n : Z) :
  sleep d = Ok tt ->
  forall k remaining attempt tr,
    k <= remaining ->
    (attempt + Z.of_nat k <= n - 1)%Z ->
    (forall j, j < k -> exists e, chat (tr ++ retries req d j) req = Raise e) ->
    Ollama.attempts chat sleep remaining attempt n req d tr
    = Ollama.attempts chat sleep (remaining - k) (attempt + Z.of_nat k) n req d
               (tr ++ retries req d k).
Proof.
  intros Sl. induction k as [|k IH]; intros remaining attempt tr L B F.
  - rewrite Nat.sub_0_r, Z.add_0_r. cbn [retries repeat concat].
    rewrite app_nil_r. reflexivity.
  - destruct remaining as [|remaining]; [lia|].
    destruct (F 0 ltac:(lia)) as [e E].
    cbn [retries repeat concat] in E. rewrite app_nil_r in E.
    cbn [Ollama.attempts]. rewrite E.
    replace (attempt =? n - 1)%Z with false by (symmetry; apply Z.eqb_neq; lia).
    rewrite Sl.
    rewrite (IH remaining (attempt + 1)%Z); [| lia | lia |].
    + rewrite retries_S, <- !app_assoc. cbn [Nat.sub app].
      replace (attempt + 1 + Z.of_nat k)%Z with (attempt + Z.of_nat (S k))%Z by lia.
      reflexivity.
    + intros j J. destruct (F (S j) ltac:(lia)) as [e' E'].
      exists e'. rewrite retries_S in E'. rewrite <- !app_assoc. exact E'.
Qed.

Lemma query_ollama_model_unfold model prompt params n tr :
  as_int (get params "custom_max_retries") = Ok n ->
  Ollama.query_ollama_model model_mapping chat sleep model prompt params tr
  = Ollama.attempts chat sleep (Z.to_nat n) 0 n
      (request_of model_mapping model prompt params)
      (get params "custom_retry_delay") tr.
Proof.
  intros E. unfold Ollama.query_ollama_model. rewrite E.
  reflexivity.
Qed.

Lemma attempts_bounded (req : request) (d : pyval) (n : Z) :
  forall remaining attempt tr,
    exists m,
      snd (Ollama.attempts chat sleep remaining attempt n req d tr)
      = tr ++ firstn m (retries req d remaining).
Proof.
  induction remaining as [|remaining IH]; intros attempt tr.
  - exists 0. cbn [Ollama.attempts snd firstn]. rewrite app_nil_r. reflexivity.
  - cbn [Ollama.attempts]. rewrite retries_S.
    destruct (chat tr req) as [content|e].
    { exists 1. reflexivity. }
    destruct (attempt =? n - 1)%Z.
    { exists 1. reflexivity. }
    destruct (sleep d) as [[]|e'].
    + destruct (IH (attempt + 1)%Z ((tr ++ [Chat req]) ++ [Sleep d])) as [m E].
      exists (S (S m)). rewrite E. cbn [firstn]. rewrite <- !app_assoc. reflexivity.
    + exists 2. cbn [snd firstn]. rewrite <- !app_assoc. reflexivity.
Qed.

(** X15.  However the server answers, the requests made are at most
    [custom_max_retries], all of them the same request, with one wait
    between two of them. *)
Theorem ollama_requests_bounded
  (model : str) (prompt : pyval) (params : dict) (tr : trace) :
  let req := request_of model_mapping model prompt params in
  let n := match as_int (get params "custom_max_retries") with
           | Ok n => Z.to_nat n
           | Raise _ => 0
           end in
  exists m,
    snd (Ollama.query_ollama_model model_mapping chat sleep model prompt params tr)
    = tr ++ firstn m (retries req (get params "custom_retry_delay") n).
Proof.
  intros req n. unfold Ollama.query_ollama_model. subst n.
  destruct (as_int (get params "custom_max_retries")) as [n|e].
  - apply attempts_bounded.
  - exists 0. cbn [snd firstn]. rewrite app_nil_r. reflexivity.
Qed.

(** X16.  When the first [k] attempts fail and the next one is answered,
    [k] being below [custom_max_retries], the answer is returned after
    [k] waits and [k + 1] requests. *)
Theorem ollama_answer_after_failures
  (model : str) (prompt : pyval) (params : dict) (n : Z) (k : nat)
  (content : pyval) (tr : trace) :
  let req := request_of model_mapping model prompt params in
  let retry_delay := get params "custom_retry_delay" in
  as_int (get params "custom_max_retries") = Ok n ->
  (Z.of_nat k < n)%Z ->
  sleep retry_delay = Ok tt ->
  (forall j, j < k -> exists e, chat (tr ++ retries req retry_delay j) req = Raise e) ->
  chat (tr ++ retries req retry_delay k) req = Ok content ->
  Ollama.query_ollama_model model_mapping chat sleep model prompt params tr
  = (Ok content, tr ++ retries req retry_delay k ++ [Chat req]).
Proof.
  intros req d N K Sl F A.
  rewrite (query_ollama_model_unfold model prompt params n tr N).
  fold req d.
  rewrite (attempts_failed req d n Sl k (Z.to_nat n) 0%Z tr); [| lia | lia | exact F].
  destruct (Z.to_nat n - k) as [|remaining] eqn:R; [lia|].
  cbn [Ollama.attempts]. rewrite A, app_assoc. reflexivity.
Qed.

(** X17.  When every attempt fails, [None] is returned after
    [custom_max_retries] requests, with a wait after each but the last. *)
Theorem ollama_gives_up
  (model : str) (prompt : pyval) (params : dict) (n : Z) (tr : trace) :
  let req := request_of model_mapping model prompt params in
  let retry_delay := get params "custom_retry_delay" in
  as_int (get params "custom_max_retries") = Ok n ->
  (1 <= n)%Z ->
  sleep retry_delay = Ok tt ->
  (forall j, j < Z.to_nat n ->
             exists e, chat (tr ++ retries req retry_delay j) req = Raise e) ->
  Ollama.query_ollama_model model_mapping chat sleep model prompt params tr
  = (Ok PNone, tr ++ retries req retry_delay (Z.to_nat n - 1) ++ [Chat req]).
Proof.
  intros req d N P Sl F.
  rewrite (query_ollama_model_unfold model prompt params n tr N).
  fold req d.
  rewrite (attempts_failed req d n Sl (Z.to_nat n - 1) (Z.to_nat n) 0%Z tr);
    [| lia | lia | intros j J; apply F; lia].
  replace (Z.to_nat n - (Z.to_nat n - 1)) with 1 by lia.
  cbn [Ollama.attempts].
  destruct (F (Z.to_nat n - 1) ltac:(lia)) as [e E]. rewrite E.
  replace (0 + Z.of_nat (Z.to_nat n - 1) =? n - 1)%Z with true
    by (symmetry; apply Z.eqb_eq; lia).
  rewrite app_assoc. reflexivity.
Qed.

Lemma clean_none (dataset_name : str) (g : rng) :
  clean_llm_output dataset_name PNone g = (cleaned_none dataset_name, g).
Proof.
  unfold clean_llm_output, cleaned_none.
  destruct (contains (lit "sentiment") dataset_name); [reflexivity|].
  destruct (contains (lit "gold") dataset_name); [reflexivity|].
  destruct (contains (lit "summary") dataset_name); reflexivity.
Qed.

Lemma cleaned_none_known (dataset_name : str) (qp : query_params) :
  get_query_params dataset_name = Ok qp ->
  cleaned_none dataset_name
  = match qp with
    | query_params_sentiment => Ok (PInt (-1))
    | query_params_gold => Ok (PDict all_invalid)
    | query_params_summary => Raise TypeError
    end.
Proof.
  unfold get_query_params, cleaned_none.
  destruct (contains (lit "sentiment") dataset_name);
    [intros Q; injection Q as <-; reflexivity|].
  destruct (contains (lit "gold") dataset_name);
    [intros Q; injection Q as <-; reflexivity|].
  destruct (contains (lit "summary") dataset_name);
    [intros Q; injection Q as <-; reflexivity | discriminate].
Qed.

(** X18.  When every attempt fails, what [query_ollama_sc] hands on is what
    cleaning makes of [None]: the label -1 on a sentiment dataset, the
    result with all keys at -1 on a gold dataset, and a [TypeError] on a
    summary dataset. *)
Theorem ollama_sc_after_giving_up
  (config : query_params -> dict) (model : str) (prompt : pyval)
  (dataset_name : str) (qp : query_params) (n : Z) (g : rng) (tr : trace) :
  let params := config qp in
  let req := request_of model_mapping model prompt params in
  let retry_delay := get params "custom_retry_delay" in
  get_query_params dataset_name = Ok qp ->
  as_int (get params "custom_max_retries") = Ok n ->
  (1 <= n)%Z ->
  sleep retry_delay = Ok tt ->
  (forall j, j < Z.to_nat n ->
             exists e, chat (tr ++ retries req retry_delay j) req = Raise e) ->
  Ollama.query_ollama_sc model_mapping chat sleep
    config model prompt dataset_name g tr
  = (match qp with
     | query_params_sentiment => Ok (PInt (-1))
     | query_params_gold => Ok (PDict all_invalid)
     | query_params_summary => Raise TypeError
     end,
     g, tr ++ retries req retry_delay (Z.to_nat n - 1) ++ [Chat req]).
Proof.
  intros params req d Q N P Sl F.
  unfold Ollama.query_ollama_sc. rewrite Q. fold params.
  rewrite (query_ollama_model_unfold model prompt params n tr N).
  fold req d.
  rewrite (attempts_failed req d n Sl (Z.to_nat n - 1) (Z.to_nat n) 0%Z tr);
    [| lia | lia | intros j J; apply F; lia].
  replace (Z.to_nat n - (Z.to_nat n - 1)) with 1 by lia.
  cbn [Ollama.attempts].
  destruct (F (Z.to_nat n - 1) ltac:(lia)) as [e E]. rewrite E.
  replace (0 + Z.of_nat (Z.to_nat n - 1) =? n - 1)%Z with true
    by (symmetry; apply Z.eqb_eq; lia).
  rewrite clean_none, (cleaned_none_known dataset_name qp Q), app_assoc.
  reflexivity.
Qed.

Lemma attempts_returns (req : request) (d : pyval) (n : Z) :
  sleep d = Ok tt ->
  forall remaining attempt tr,
    exists response tr',
      Ollama.attempts chat sleep remaining attempt n req d tr = (Ok response, tr').
Proof.
  intros Sl. induction remaining as [|remaining IH]; intros attempt tr;
    cbn [Ollama.attempts].
  - eauto.
  - destruct (chat tr req) as [content|e]; [eauto|].
    destruct (attempt =? n - 1)%Z; [eauto|].
    rewrite Sl. apply IH.
Qed.

Lemma track_each_returns (model : str) (params : dict) (n : Z) :
  as_int (get params "custom_max_retries") = Ok n ->
  sleep (get params "custom_retry_delay") = Ok tt ->
  forall sample_prompts tr,
    exists responses tr',
      Ollama.track_each model_mapping chat sleep model sample_prompts params tr
      = (Ok responses, tr')
      /\ List.length responses = List.length sample_prompts.
Proof.
  intros N Sl. induction sample_prompts as [|prompt others IH]; intros tr;
    cbn [Ollama.track_each].
  - exists [], tr. split; reflexivity.
  - rewrite (query_ollama_model_unfold model prompt params n tr N).
    destruct (attempts_returns (request_of model_mapping model prompt params)
                _ n Sl (Z.to_nat n) 0%Z tr) as (response & tr1 & ->).
    destruct (IH tr1) as (responses & tr2 & -> & L).
    exists (response :: responses), tr2. split; [reflexivity|].
    cbn [List.length]. rewrite L. reflexivity.
Qed.

(** X19.  When the waits succeed, [track_samples_ollama] raises nothing,
    whatever the server does, and returns one response for each sample
    prompt. *)
Theorem track_samples_one_per_prompt
  (config : query_params -> dict) (model dataset_name : str)
  (sample_prompts : list pyval) (qp : query_params) (n : Z) (tr : trace) :
  get_samples dataset_name = Ok sample_prompts ->
  get_query_params dataset_name = Ok qp ->
  as_int (get (config qp) "custom_max_retries") = Ok n ->
  sleep (get (config qp) "custom_retry_delay") = Ok tt ->
  exists responses tr',
    Ollama.track_samples_ollama model_mapping chat sleep get_samples
      config model dataset_name tr
    = (Ok responses, tr')
    /\ List.length responses = List.length sample_prompts.
Proof.
  intros G Q N Sl. unfold Ollama.track_samples_ollama. rewrite G, Q.
  apply (track_each_returns model (config qp) n N Sl).
Qed.

Lemma dict_get_pop (key : string) (k : str) : forall d,
  dict_get (HF.pop key d) k
  = if str_eqb (lit key) k then None else dict_get d k.
Proof.
  induction d as [|[k' v] d IH]; cbn [HF.pop filter dict_get fst].
  - destruct (str_eqb (lit key) k); reflexivity.
  - destruct (str_eqb k' (lit key)) eqn:E; cbn [negb].
    + apply str_eqb_eq in E. subst k'. fold (HF.pop key d). rewrite IH.
      destruct (str_eqb (lit key) k); reflexivity.
    + cbn [dict_get]. fold (HF.pop key d). rewrite IH.
      destruct (str_eqb k' k) eqn:E'; [|reflexivity].
      apply str_eqb_eq in E'. subst k'.
      destruct (str_eqb (lit key) k) eqn:E''; [|reflexivity].
      apply str_eqb_eq in E''. subst k. rewrite str_eqb_refl in E. discriminate.
Qed.

(** X20.  [predict] pops the retry settings from the dict that
    [get_query_params] returns, which is the dict of the configuration
    itself.  After it, [query_ollama_sc] on a dataset with the same
    parameters raises [TypeError] at [range(None)], before any request. *)
Theorem predict_breaks_ollama
  (config config' : query_params -> dict) (dataset_name dataset_name' : str)
  (params : query_params) (model : str) (prompt : pyval) (g : rng) (tr : trace) :
  HF.predict_params dataset_name config = Ok (params, config') ->
  get_query_params dataset_name' = Ok params ->
  Ollama.query_ollama_sc model_mapping chat sleep
    config' model prompt dataset_name' g tr
  = (Raise TypeError, g, tr).
Proof.
  unfold HF.predict_params. intros P Q.
  destruct (get_query_params dataset_name) as [p|e]; cbn [bind] in P; [|discriminate].
  injection P as -> <-.
  unfold Ollama.query_ollama_sc, Ollama.query_ollama_model. rewrite Q.
  replace (HF.query_params_eqb params params) with true by (destruct params; reflexivity).
  unfold get at 1. rewrite !dict_get_pop.
  replace (str_eqb (lit "max_context_length") (lit "custom_max_retries")) with false
    by (vm_compute; reflexivity).
  replace (str_eqb (lit "custom_retry_delay") (lit "custom_max_retries")) with false
    by (vm_compute; reflexivity).
  rewrite str_eqb_refl. reflexivity.
Qed.

End ClientFacts.

Lemma ollama_answer_after_failures_witness :
  let req := Ollama.request_of [] (lit "llama3.2:1b") (PStr (lit "text")) sample_params in
  Ollama.query_ollama_model [] answers_third clock
    (lit "llama3.2:1b") (PStr (lit "text")) sample_params []
  = (Ok (PStr (lit "positive")),
     [] ++ retries req (PInt 5) 2 ++ [Ollama.Chat req]).
Proof.
  apply (ollama_answer_after_failures [] answers_third clock
           (lit "llama3.2:1b") (PStr (lit "text")) sample_params 3 2).
  - reflexivity.
  - lia.
  - reflexivity.
  - intros j J. exists ValueError.
    destruct j as [|[|j]]; [reflexivity | reflexivity | lia].
  - reflexivity.
Defined.

Lemma ollama_gives_up_witness :
  let req := Ollama.request_of [] (lit "llama3.2:1b") (PStr (lit "text")) sample_params in
  Ollama.query_ollama_model [] never_answers clock
    (lit "llama3.2:1b") (PStr (lit "text")) sample_params []
  = (Ok PNone, [] ++ retries req (PInt 5) 2 ++ [Ollama.Chat req]).
Proof.
  apply (ollama_gives_up [] never_answers clock
           (lit "llama3.2:1b") (PStr (lit "text")) sample_params 3).
  - reflexivity.
  - lia.
  - reflexivity.
  - intros j J. exists ValueError. reflexivity.
Defined.

Lemma ollama_sc_after_giving_up_witness :
  let req := Ollama.request_of [] (lit "llama3.2:1b") (PStr (lit "text")) sample_params in
  Ollama.query_ollama_sc [] never_answers clock (fun _ => sample_params)
    (lit "llama3.2:1b") (PStr (lit "text")) (lit "summary:test") (draws 0) []
  = (Raise TypeError, draws 0,
     [] ++ retries req (PInt 5) 2 ++ [Ollama.Chat req]).
Proof.
  apply (ollama_sc_after_giving_up [] never_answers clock (fun _ => sample_params)
           (lit "llama3.2:1b") (PStr (lit "text")) (lit "summary:test")
           query_params_summary 3).
  - reflexivity.
  - reflexivity.
  - lia.
  - reflexivity.
  - intros j J. exists ValueError. reflexivity.
Defined.

Lemma predict_breaks_ollama_witness :
  Ollama.query_ollama_sc [] answers_third clock
    (fun q => if HF.query_params_eqb q query_params_gold
              then [ (lit "temperature", PFloat (FDec 1 (-1))); (lit "seed", PInt 42);
                     (lit "max_new_tokens", PInt 64) ]
              else sample_params)
    (lit "llama3.2:1b") (PStr (lit "text")) (lit "gold") (draws 0) []
  = (Raise TypeError, draws 0, []).
Proof.
  apply (predict_breaks_ollama [] answers_third clock (fun _ => sample_params)
           _ (lit "gold_test") (lit "gold") query_params_gold).
  - reflexivity.
  - reflexivity.
Defined.

Lemma track_samples_one_per_prompt_witness :
  exists responses tr',
    Ollama.track_samples_ollama [] answers_third clock
      (fun _ => Ok [PStr (lit "one"); PStr (lit "two")])
      (fun _ => sample_params) (lit "llama3.2:1b") (lit "sentiment") []
    = (Ok responses, tr')
    /\ List.length responses = List.length [PStr (lit "one"); PStr (lit "two")].
Proof.
  apply (track_samples_one_per_prompt [] answers_third clock
           (fun _ => Ok [PStr (lit "one"); PStr (lit "two")])
           (fun _ => sample_params) (lit "llama3.2:1b") (lit "sentiment")
           [PStr (lit "one"); PStr (lit "two")] query_params_sentiment 3);
    reflexivity.
Defined.

(* ================================================================== *)
(** * Dataset names and completions *)
(* ================================================================== *)

Section CompletionFacts.

Lemma startswith_prefix (w : str) : forall tail, startswith w (w ++ tail) = true.
Proof.
  induction w as [|a w IH]; intros tail; [reflexivity|].
  cbn [app startswith]. rewrite N.eqb_refl. apply IH.
Qed.

Lemma contains_app (w : str) : forall a b, contains w (a ++ w ++ b) = true.
Proof.
  induction a as [|x a IH]; intros b; cbn [app].
  - destruct (w ++ b) eqn:E; cbn [contains]; rewrite <- E, startswith_prefix;
      reflexivity.
  - cbn [contains]. rewrite IH. apply orb_true_r.
Qed.

(** X14.  The dataset name is searched for the keywords, in the order
    sentiment, gold, summary: a name that holds [sentiment] anywhere
    selects the sentiment parameters and the sentiment cleaner, whatever
    else it holds; [gold] is looked for only in a name without
    [sentiment]. *)
Theorem dispatch_keyword_anywhere (a b : str) (text : pyval) (g : rng) :
  let name := a ++ lit "sentiment" ++ b in
  let name' := a ++ lit "gold" ++ b in
  (get_query_params name = Ok query_params_sentiment
   /\ clean_llm_output name text g
      = (label <- clean_llm_output_sentiment text ;; ret (PInt label)) g)
  /\ (contains (lit "sentiment") name' = false ->
      get_query_params name' = Ok query_params_gold
      /\ clean_llm_output name' text g
         = (d <- lift (clean_llm_output_gold text) ;; ret (PDict d)) g).
Proof.
  intros name name'. split.
  - unfold get_query_params, clean_llm_output. subst name.
    rewrite contains_app. split; reflexivity.
  - intros N. unfold get_query_params, clean_llm_output. rewrite N. subst name'.
    rewrite contains_app. split; reflexivity.
Qed.

Lemma find_first (sep : str) : forall a b,
  clear_ahead sep (List.length a) (a ++ sep ++ b) ->
  HF.find sep (a ++ sep ++ b) = Some (List.length a).
Proof.
  induction a as [|x a IH]; intros b C; cbn [app List.length].
  - destruct (sep ++ b) eqn:E; cbn [HF.find]; rewrite <- E, startswith_prefix;
      reflexivity.
  - cbn [HF.find]. pose proof (C 0 ltac:(cbn; lia)) as C0. cbn [skipn app] in C0.
    rewrite C0, IH; [reflexivity|].
    intros j J. apply (C (S j)). cbn [List.length]. lia.
Qed.

Lemma find_none (sep : str) : forall s,
  HF.find sep s = None <-> contains sep s = false.
Proof.
  induction s as [|x s IH]; cbn [HF.find contains].
  - destruct (startswith sep []); cbn [orb]; split; congruence.
  - destruct (startswith sep (x :: s)); cbn [orb]; [split; discriminate|].
    rewrite <- IH. destruct (HF.find sep s); cbn [option_map]; split; congruence.
Qed.

(** X21.  Of a completion, [predict] keeps what follows the first
    occurrence of the separator, without the white space around it. *)
Theorem completion_after_first_separator (sep a b : str) :
  clear_ahead sep (List.length a) (a ++ sep ++ b) ->
  HF.completion_of sep (a ++ sep ++ b) = Some (strip b).
Proof.
  intros C. unfold HF.completion_of. rewrite (find_first sep a b C).
  rewrite <- length_app, app_assoc, skipn_app, Nat.sub_diag, skipn_all.
  reflexivity.
Qed.

(** X22.  A completion is passed over exactly when the separator is not in
    it. *)
Theorem completion_skipped_iff (sep completion : str) :
  HF.completion_of sep completion = None <-> contains sep completion = false.
Proof.
  unfold HF.completion_of. rewrite <- find_none.
  destruct (HF.find sep completion); split; congruence.
Qed.

End CompletionFacts.

(** X21, on a completion that holds the separator twice. *)
Lemma completion_after_first_separator_witness :
  HF.completion_of (lit "Final Label: ")
    (lit "Text: fine. " ++ lit "Final Label: " ++ lit " positive
Final Label: negative")
  = Some (strip (lit " positive
Final Label: negative")).
Proof.
  apply completion_after_first_separator.
  intros j J. cbn [List.length lit] in J.
  do 12 (destruct j as [|j]; [reflexivity|]). cbn in J. lia.
Defined.

Section PredictFacts.

(** X23.  Of the configuration, [predict] changes the dict of its own
    dataset only, and in it only the three names it pops: they are gone
    afterwards, and every other name holds what it held. *)
Theorem predict_params_effect
  (config config' : query_params -> dict) (dataset_name : str)
  (params : query_params) :
  HF.predict_params dataset_name config = Ok (params, config') ->
  get_query_params dataset_name = Ok params
  /\ (forall q, q <> params -> config' q = config q)
  /\ (forall k, dict_get (config' params) k
                = if existsb (fun key => str_eqb (lit key) k) popped_keys
                  then None else dict_get (config params) k).
Proof.
  unfold HF.predict_params. intros P.
  destruct (get_query_params dataset_name) as [p|e]; cbn [bind] in P; [|discriminate].
  injection P as -> <-. split; [reflexivity|]. split.
  - intros q N. destruct q, params; cbn [HF.query_params_eqb];
      try reflexivity; exfalso; apply N; reflexivity.
  - intros k.
    replace (HF.query_params_eqb params params) with true
      by (destruct params; reflexivity).
    rewrite !dict_get_pop. cbn [existsb popped_keys].
    destruct (str_eqb (lit "custom_max_retries") k),
             (str_eqb (lit "custom_retry_delay") k),
             (str_eqb (lit "max_context_length") k); reflexivity.
Qed.

End PredictFacts.

(** X23, on a configuration with the same dict for every dataset. *)
Lemma predict_params_effect_witness :
  let config' :=
    fun q => if HF.query_params_eqb q query_params_gold
             then [ (lit "temperature", PFloat (FDec 1 (-1))); (lit "seed", PInt 42);
                    (lit "max_new_tokens", PInt 64) ]
             else sample_params in
  get_query_params (lit "gold_test") = Ok query_params_gold
  /\ (forall q, q <> query_params_gold -> config' q = sample_params)
  /\ (forall k, dict_get (config' query_params_gold) k
                = if existsb (fun key => str_eqb (lit key) k) popped_keys
                  then None else dict_get sample_params k).
Proof.
  apply (predict_params_effect (fun _ => sample_params) _ (lit "gold_test")
           query_params_gold).
  reflexivity.
Defined.
